(** * routecheck: a shallow embedding of [main.cpp]

    routecheck probes the route to a destination with ICMP echo requests
    of bounded TTL and reports which of the gateways given on the command
    line answered on the way.  The whole program is the function [main]
    of [src/routecheck/main.cpp]; this file embeds it statement by
    statement and proves properties of the embedding.

    - C++ [int] values are [Z]; the two narrowing conversions the program
      performs ([int] to the [UCHAR] field [Ttl], [int] to the [DWORD]
      timeout parameter) are written out as reductions modulo [2^8] and
      [2^32].
    - [std::vector<std::string> args] is a [list string]; [args[i]] with
      [i >= args.size()] is undefined behaviour and is modelled by a
      distinct outcome, [OutOfRange i].
    - The Windows functions the program calls ([InetPtonA],
      [IcmpCreateFile], [IcmpSendEcho], [IcmpCloseHandle]) are the fields
      of the interface [Win32]; the network is an explicit [World] passed
      from call to call.
    - Everything observable is appended, in program order, to a trace of
      [event]s: text written to [std::cout] and the calls of the ICMP
      functions with their results. *)

From Stdlib Require Import ZArith NArith List String Ascii Bool Lia DecimalString Sorted.
Import ListNotations.
Local Open Scope string_scope.
Local Open Scope Z_scope.

(** ** Integer types *)

Definition INT_MAX : Z := 2147483647.
Definition INT_MIN : Z := -2147483648.

(** Conversion of an [int] to [unsigned char] (the type [UCHAR] of the
    fields of [IP_OPTION_INFORMATION], Windows SDK [ipexport.h]). *)
Definition to_uchar (z : Z) : Z := z mod 256.

(** Conversion of an [int] to [DWORD] (unsigned 32 bits). *)
Definition to_dword (z : Z) : Z := z mod 4294967296.

(** ** Outcomes of a computation

    [Done x]: the computation returned [x].  [OutOfRange i]: it evaluated
    [args[i]] with [i] not below [args.size()].  [OutOfFuel]: the loop
    counter of the embedding ran out (shown never to happen). *)

Inductive outcome (A : Type) : Type :=
| Done (x : A)
| OutOfRange (i : nat)
| OutOfFuel.

Arguments Done {A} x.
Arguments OutOfRange {A} i.
Arguments OutOfFuel {A}.

Definition bind {A B : Type} (m : outcome A) (k : A -> outcome B) : outcome B :=
  match m with
  | Done x => k x
  | OutOfRange i => OutOfRange i
  | OutOfFuel => OutOfFuel
  end.

Notation "x <- m ;; k" := (bind m (fun x => k))
  (at level 61, m at next level, right associativity).
Notation "' p <- m ;; k" := (bind m (fun x => let p := x in k))
  (at level 61, p pattern, m at next level, right associativity).

(** ** Text *)

Definition endl : string := String (ascii_of_nat 10) EmptyString.
Definition tab : string := String (ascii_of_nat 9) EmptyString.

(** [std::cout << n] for an [int]. *)
Definition show_int (z : Z) : string := NilZero.string_of_int (Z.to_int z).

(** ** [atoi]

    The C library function, as the Microsoft C runtime documents it: white
    space is skipped, an optional sign is read, then decimal digits up to
    the first character that is not one; no digit gives 0; a value outside
    [int] gives [INT_MAX] or [INT_MIN]. *)

Definition is_space (c : ascii) : bool :=
  let n := nat_of_ascii c in
  ((n =? 32) || ((9 <=? n) && (n <=? 13)))%nat.

Definition digit_of (c : ascii) : option Z :=
  let n := Z.of_nat (nat_of_ascii c) in
  if (48 <=? n) && (n <=? 57) then Some (n - 48) else None.

Fixpoint skip_spaces (s : string) : string :=
  match s with
  | String c r => if is_space c then skip_spaces r else s
  | EmptyString => s
  end.

Fixpoint digits_value (acc : Z) (s : string) : Z :=
  match s with
  | String c r =>
      match digit_of c with
      | Some d => digits_value (10 * acc + d) r
      | None => acc
      end
  | EmptyString => acc
  end.

Definition clamp_int (z : Z) : Z := Z.max INT_MIN (Z.min INT_MAX z).

Definition atoi (s : string) : Z :=
  match skip_spaces s with
  | String "-" r => clamp_int (- digits_value 0 r)
  | String "+" r => clamp_int (digits_value 0 r)
  | t => clamp_int (digits_value 0 t)
  end.

(** ** Data model *)

(** [struct NETWORK_NODE] of [main]; [ip] is the 32-bit [S_un.S_addr]. *)
Record NETWORK_NODE : Type := mkNode {
  hostname : string;
  ip : Z;
  replied : bool
}.

Definition set_hostname (s : string) (n : NETWORK_NODE) : NETWORK_NODE :=
  mkNode s (ip n) (replied n).
Definition set_ip (x : Z) (n : NETWORK_NODE) : NETWORK_NODE :=
  mkNode (hostname n) x (replied n).
Definition set_replied (b : bool) (n : NETWORK_NODE) : NETWORK_NODE :=
  mkNode (hostname n) (ip n) b.

(** [NETWORK_NODE x{ "", NULL, false }]. *)
Definition empty_node : NETWORK_NODE := mkNode "" 0 false.

Definition HANDLE : Type := Z.
Definition INVALID_HANDLE_VALUE : HANDLE := -1.

(** [IP_OPTION_INFORMATION] (and [IP_OPTION_INFORMATION32]) of the
    Windows SDK: [UCHAR Ttl; UCHAR Tos; UCHAR Flags; UCHAR OptionsSize;
    PUCHAR OptionsData].  The program zeroes the structure with [memset]
    and sets [Ttl] and [Flags]; an [int] assigned to [Ttl] is converted to
    [unsigned char]. *)
Record IP_OPTION_INFORMATION : Type := mkOptions {
  Ttl : Z;
  Tos : Z;
  Flags : Z;
  OptionsSize : Z
}.

Definition IP_FLAG_DF : Z := 2.

(** [unsigned char payload[payload_size]{ 42 }]. *)
Definition payload : list Z := [42].

(** ** The platform

    [InetPtonA s buf] (address family [AF_INET]) returns the function's
    return value and the contents of the [IN_ADDR] buffer afterwards.
    [IcmpSendEcho h dst payload opts buf timeout w] returns the reply
    count and the [Address] field of the [ICMP_ECHO_REPLY] at the start of
    the reply buffer afterwards ([buf] is that field before the call). *)

Class Win32 : Type := {
  World : Type;
  InetPtonA : string -> Z -> Z * Z;
  IcmpCreateFile : World -> HANDLE * World;
  IcmpSendEcho :
    HANDLE -> Z -> list Z -> IP_OPTION_INFORMATION -> Z -> Z -> World ->
    N * Z * World;
  IcmpCloseHandle : HANDLE -> World -> World
}.

(** ** Observable events *)

Inductive event : Type :=
| Out (s : string)
| Create (h : HANDLE)
| Echo (h : HANDLE) (dst : Z) (opts : IP_OPTION_INFORMATION) (timeout : Z)
       (count : N) (addr : Z)
| Close (h : HANDLE).

(** ** The local variables of [main] *)

Record Vars : Type := mkVars {
  verbose : bool;
  destination : NETWORK_NODE;
  gateways : list NETWORK_NODE;
  timeout : Z;
  max_hops : Z;
  trace : list event
}.

Definition initial_vars : Vars :=
  mkVars false empty_node [] 10000 30 [].

Definition set_verbose (b : bool) (v : Vars) : Vars :=
  mkVars b (destination v) (gateways v) (timeout v) (max_hops v) (trace v).
Definition set_destination (d : NETWORK_NODE) (v : Vars) : Vars :=
  mkVars (verbose v) d (gateways v) (timeout v) (max_hops v) (trace v).
Definition set_gateways (g : list NETWORK_NODE) (v : Vars) : Vars :=
  mkVars (verbose v) (destination v) g (timeout v) (max_hops v) (trace v).
Definition set_timeout (t : Z) (v : Vars) : Vars :=
  mkVars (verbose v) (destination v) (gateways v) t (max_hops v) (trace v).
Definition set_max_hops (m : Z) (v : Vars) : Vars :=
  mkVars (verbose v) (destination v) (gateways v) (timeout v) m (trace v).
Definition log (es : list event) (v : Vars) : Vars :=
  mkVars (verbose v) (destination v) (gateways v) (timeout v) (max_hops v)
         (trace v ++ es).

(** One statement writing [s] to [std::cout]. *)
Definition print (s : string) (v : Vars) : Vars := log [Out s] v.

(** [if (verbose) std::cout << s]. *)
Definition print_if_verbose (s : string) (v : Vars) : Vars :=
  if verbose v then print s v else v.

(** [printHelp()]: one event per statement. *)
Definition help_text : list event :=
  [ Out ("routecheck - check the route to a destination and report which of the specified routes were encountered." ++ endl);
    Out ("Parameters:" ++ endl ++ tab ++ "-v - Verbose output to screen" ++ endl);
    Out (tab ++ "-h - Print this help" ++ endl);
    Out (tab ++ "-d <IP> - Destination we are trying to examine" ++ endl);
    Out (tab ++ "-gw <IP> - Gateway or intermediate hope we are interested in" ++ endl);
    Out (tab ++ "-ttl <hops> - Maximum hops to allow trace to run (default 30)" ++ endl);
    Out (tab ++ "-timeout <time> - Maximum time in milliseconds to wait for a reply (default 10,000 or 10 seconds)" ++ endl);
    Out (endl ++ "routecheck will return 0 on success and print a report to the screen" ++ endl) ].

Definition printHelp (v : Vars) : Vars := log help_text v.

(** ** Argument parsing (lines 58-113 of [main.cpp]) *)

Section Program.

Context {W : Win32}.

(** [args[i]]. *)
Definition arg (args : list string) (i : nat) : outcome string :=
  match nth_error args i with
  | Some s => Done s
  | None => OutOfRange i
  end.

(** The branch [args[a] == "-d"]: returns the variables after it. *)
Definition parse_d (args : list string) (a : nat) (v : Vars) : outcome Vars :=
  nxt <- arg args (a + 1) ;;
  let v1 := print_if_verbose ("Destination: " ++ nxt ++ endl) v in
  let '(rc, buf) := InetPtonA nxt (ip (destination v1)) in
  let v2 := set_destination (set_ip buf (destination v1)) v1 in
  Done (if negb (rc =? 1)
        then if verbose v2
             then printHelp (print ("Destination address is invalid " ++ nxt ++ endl) v2)
             else v2
        else set_destination (set_hostname nxt (destination v2)) v2).

(** The branch [args[a] == "-gw"]: [gateways.push_back(node)] is
    executed on both sides of the test of [InetPtonA]. *)
Definition parse_gw (args : list string) (a : nat) (v : Vars) : outcome Vars :=
  nxt <- arg args (a + 1) ;;
  let v1 := print_if_verbose ("Gateway: " ++ nxt ++ endl) v in
  let node := empty_node in
  let '(rc, buf) := InetPtonA nxt (ip node) in
  let node1 := set_ip buf node in
  let '(node2, v2) :=
    if negb (rc =? 1)
    then (node1,
          if verbose v1
          then printHelp (print ("Destination address is invalid " ++ nxt ++ endl) v1)
          else v1)
    else (set_hostname nxt node1, v1) in
  Done (set_gateways (gateways v2 ++ [node2]) v2).

(** The branches [args[a] == "-ttl"] and [args[a] == "-timeout"]: the
    message reads [args[a + 1]], then [a++], then [atoi] reads
    [args[a + 1]] at the new [a].  [a] below is the index of the flag. *)
Definition parse_ttl (args : list string) (a : nat) (v : Vars) : outcome (nat * Vars) :=
  v1 <- (if verbose v
         then nxt <- arg args (a + 1) ;; Done (print ("Specified TTL " ++ nxt) v)
         else Done v) ;;
  let a1 := S a in
  val <- arg args (a1 + 1) ;;
  Done (a1, set_max_hops (atoi val) v1).

Definition parse_timeout (args : list string) (a : nat) (v : Vars) : outcome (nat * Vars) :=
  v1 <- (if verbose v
         then nxt <- arg args (a + 1) ;; Done (print ("Specified Timeout " ++ nxt) v)
         else Done v) ;;
  let a1 := S a in
  val <- arg args (a1 + 1) ;;
  Done (a1, set_timeout (atoi val) v1).

(** The body of the [for] loop at index [a]: the index and the variables
    at the end of the body (before the loop's own [a++]). *)
Definition parse_arg (args : list string) (a : nat) (v : Vars) : outcome (nat * Vars) :=
  tok <- arg args a ;;
  if (tok =? "-v")%string then Done (a, set_verbose true v)
  else if (tok =? "-help")%string then Done (a, printHelp v)
  else if (tok =? "-d")%string then v' <- parse_d args a v ;; Done (S a, v')
  else if (tok =? "-gw")%string then v' <- parse_gw args a v ;; Done (S a, v')
  else if (tok =? "-ttl")%string then parse_ttl args a v
  else if (tok =? "-timeout")%string then parse_timeout args a v
  else Done (a, v).

(** [for (int a = 0; a < args.size(); a++) { ... }], from index [a]. *)
Fixpoint parse_loop (fuel : nat) (args : list string) (a : nat) (v : Vars)
  : outcome Vars :=
  if (a <? List.length args)%nat then
    match fuel with
    | O => OutOfFuel
    | S fuel' =>
        '(a', v') <- parse_arg args a v ;;
        parse_loop fuel' args (S a') v'
    end
  else Done v.

(** Lines 59-113: the [std::any_of] test for ["-v"], then the loop. *)
Definition parse_args (args : list string) (v : Vars) : outcome Vars :=
  let v1 := if existsb (fun y => (y =? "-v")%string) args then set_verbose true v else v in
  parse_loop (List.length args) args 0 v1.

(** ** The gateway matcher (lines 186-193) *)

(** The inner loop over [gateways]: every entry whose address is [addr]
    gets [replied = true]. *)
Definition observe (addr : Z) (gws : list NETWORK_NODE) : list NETWORK_NODE :=
  map (fun g => if addr =? ip g then set_replied true g else g) gws.

(** What the inner loop writes when verbose, in the order of the entries. *)
Definition observe_messages (addr : Z) (i : Z) (gws : list NETWORK_NODE) : list event :=
  flat_map (fun g =>
              if addr =? ip g
              then [Out ("Gateway " ++ hostname g ++ " replied at hop " ++ show_int i ++ endl)]
              else []) gws.

(** ** The hop sweep (lines 176-195) *)

(** One probe of the sweep at loop index [i]. *)
Definition sweep_step (h : HANDLE) (opts : IP_OPTION_INFORMATION) (i : Z) (buf : Z)
  (v : Vars) (w : World) : IP_OPTION_INFORMATION * Z * Vars * World :=
  let opts1 := mkOptions (to_uchar i) (Tos opts) (Flags opts) (OptionsSize opts) in
  let '(reply_count, buf1, w1) :=
    IcmpSendEcho h (ip (destination v)) payload opts1 buf (to_dword (timeout v)) w in
  let v1 := log [Echo h (ip (destination v)) opts1 (to_dword (timeout v)) reply_count buf1] v in
  let v2 :=
    if (0 <? reply_count)%N
    then let msgs := if verbose v1 then observe_messages buf1 i (gateways v1) else [] in
         log msgs (set_gateways (observe buf1 (gateways v1)) v1)
    else v1 in
  (opts1, buf1, v2, w1).

(** [for (int i = 1; i < max_hops; i++) { ... }], from index [i]. *)
Fixpoint sweep (fuel : nat) (h : HANDLE) (opts : IP_OPTION_INFORMATION) (i : Z)
  (buf : Z) (v : Vars) (w : World) : outcome (Vars * World) :=
  if i <? max_hops v then
    match fuel with
    | O => OutOfFuel
    | S fuel' =>
        let '(opts1, buf1, v1, w1) := sweep_step h opts i buf v w in
        sweep fuel' h opts1 (i + 1) buf1 v1 w1
    end
  else Done (v, w).

(** ** The report (lines 198-202) *)

(** A gateway's line of the report. *)
Definition gateway_line (gw : NETWORK_NODE) : event :=
  Out ("Gateway:" ++ hostname gw ++ ":"
       ++ (if replied gw then "replied" else "no reply") ++ endl).

Definition report (v : Vars) : list event :=
  Out ("Destination:" ++ hostname (destination v) ++ ":replied" ++ endl)
  :: map gateway_line (gateways v).

(** ** After the handle is created (lines 137-205) *)

(** [ip_options] as the program sets it up before the first probe. *)
Definition initial_options (v : Vars) : IP_OPTION_INFORMATION :=
  mkOptions (to_uchar (max_hops v)) 0 IP_FLAG_DF 0.

(** The call of [IcmpSendEcho] at line 153: the reachability probe.  The
    reply buffer is zero-initialised. *)
Definition reachability_probe (h : HANDLE) (v : Vars) (w : World) : N * Z * World :=
  IcmpSendEcho h (ip (destination v)) payload (initial_options v) 0
               (to_dword (timeout v)) w.

(** The reachability probe's [Echo] event. *)
Definition reachability_event (h : HANDLE) (v : Vars) (count : N) (buf : Z) : event :=
  Echo h (ip (destination v)) (initial_options v) (to_dword (timeout v)) count buf.

Definition probe_route (icmp_handle : HANDLE) (v : Vars) (w : World)
  : outcome (Z * Vars * World) :=
  let ip_options := initial_options v in
  let '(reply_count, buf, w1) := reachability_probe icmp_handle v w in
  let v1 := log [Echo icmp_handle (ip (destination v)) ip_options
                      (to_dword (timeout v)) reply_count buf] v in
  let v2 :=
    print_if_verbose
      (if (0 <? reply_count)%N
       then "Destination " ++ hostname (destination v1) ++ " replied" ++ endl
       else "Destination " ++ hostname (destination v1) ++ " did not reply within "
            ++ show_int (timeout v1) ++ "ms" ++ endl) v1 in
  if (reply_count =? 0)%N then
    Done (4, log [Close icmp_handle] v2, IcmpCloseHandle icmp_handle w1)
  else
    let v3 := set_destination (set_replied true (destination v2)) v2 in
    '(v4, w2) <-
      (if (0 <? List.length (gateways v3))%nat
       then sweep (Z.to_nat (max_hops v3)) icmp_handle ip_options 1 buf v3 w1
       else Done (v3, w1)) ;;
    let v5 := log (report v4) v4 in
    Done (0, log [Close icmp_handle] v5, IcmpCloseHandle icmp_handle w2).

(** ** [main]

    [argv] is the whole argument vector ([argv[0]] is the program name)
    and [argc] its length.  The result is the exit code, the variables at
    the [return] (with the trace) and the world. *)

(** Lines 123-127. *)
Definition notice_no_gateways (v : Vars) : Vars :=
  if (List.length (gateways v) =? 0)%nat
  then let v' := print ("No gateways specified" ++ endl) v in
       if verbose v' then printHelp v' else v'
  else v.

Definition main (argv : list string) (w : World) : outcome (Z * Vars * World) :=
  let v0 := initial_vars in
  if Z.of_nat (List.length argv) <? 2 then Done (1, printHelp v0, w)
  else
    let args := skipn 1 argv in
    v1 <- parse_args args v0 ;;
    if (hostname (destination v1) =? "")%string then
      let v2 := print ("No destination specified" ++ endl) v1 in
      Done (2, if verbose v2 then printHelp v2 else v2, w)
    else
      let v2 := notice_no_gateways v1 in
      let '(icmp_handle, w1) := IcmpCreateFile w in
      let v3 := log [Create icmp_handle] v2 in
      if icmp_handle =? INVALID_HANDLE_VALUE then
        Done (3, print_if_verbose ("Could not create ICMP handle" ++ endl) v3, w1)
      else probe_route icmp_handle v3 w1.

End Program.

(** ** A simulated platform

    Used to run the program on concrete command lines.  The address
    parser accepts exactly four decimal fields of one to three digits, each
    at most 255, separated by dots, and stores the address in network byte
    order.  The network is a route: [routers] are the addresses that answer
    "time exceeded" at hops 1, 2, ... ([None] is a hop that stays silent);
    the destination sits one hop after the last router and answers when
    [dest_up].  The world counts the open ICMP handles. *)

Fixpoint split_dots (s : string) : list string :=
  match s with
  | EmptyString => [EmptyString]
  | String c r =>
      if (c =? ".")%char then EmptyString :: split_dots r
      else match split_dots r with
           | x :: xs => String c x :: xs
           | [] => [String c EmptyString]
           end
  end.

Fixpoint all_digits (s : string) : bool :=
  match s with
  | EmptyString => true
  | String c r => match digit_of c with Some _ => all_digits r | None => false end
  end.

Definition octet (s : string) : option Z :=
  let n := String.length s in
  if ((1 <=? n) && (n <=? 3))%nat && all_digits s && (digits_value 0 s <=? 255)
  then Some (digits_value 0 s) else None.

Definition ipv4_literal (s : string) : option Z :=
  match map octet (split_dots s) with
  | [Some b1; Some b2; Some b3; Some b4] =>
      Some (b1 + 256 * b2 + 65536 * b3 + 16777216 * b4)
  | _ => None
  end.

Definition sim_InetPtonA (s : string) (buf : Z) : Z * Z :=
  match ipv4_literal s with
  | Some x => (1, x)
  | None => (0, buf)
  end.

Definition sim_handle : HANDLE := 1000.

Definition sim_IcmpSendEcho (routers : list (option Z)) (dest_up : bool)
  (h : HANDLE) (dst : Z) (data : list Z) (opts : IP_OPTION_INFORMATION)
  (buf : Z) (timeout : Z) (w : nat) : N * Z * nat :=
  let t := Z.to_nat (Ttl opts) in
  match t with
  | O => (0%N, buf, w)
  | S k =>
      if (k <? List.length routers)%nat then
        match nth k routers None with
        | Some a => (1%N, a, w)
        | None => (0%N, buf, w)
        end
      else if dest_up then (1%N, dst, w) else (0%N, buf, w)
  end.

Definition SimNet (create_ok : bool) (routers : list (option Z)) (dest_up : bool)
  : Win32 :=
  {| World := nat;
     InetPtonA := sim_InetPtonA;
     IcmpCreateFile := fun w =>
       if create_ok then (sim_handle, S w) else (INVALID_HANDLE_VALUE, w);
     IcmpSendEcho := sim_IcmpSendEcho routers dest_up;
     IcmpCloseHandle := fun _ w => Nat.pred w |}.

(** ** Reading a trace *)

(** A probe as the trace records it: the TTL sent, the reply count and
    the responder address read from the reply buffer. *)
Definition probe : Type := Z * N * Z.

Definition probe_ttl (p : probe) : Z := fst (fst p).
Definition probe_count (p : probe) : N := snd (fst p).
Definition probe_addr (p : probe) : Z := snd p.

Fixpoint echoes (tr : list event) : list probe :=
  match tr with
  | [] => []
  | Echo _ _ opts _ count addr :: r => (Ttl opts, count, addr) :: echoes r
  | _ :: r => echoes r
  end.

Fixpoint creates (tr : list event) : list HANDLE :=
  match tr with
  | [] => []
  | Create h :: r => h :: creates r
  | _ :: r => creates r
  end.

Fixpoint closes (tr : list event) : list HANDLE :=
  match tr with
  | [] => []
  | Close h :: r => h :: closes r
  | _ :: r => closes r
  end.

(** The text written to [std::cout], one string per statement. *)
Fixpoint stdout (tr : list event) : list string :=
  match tr with
  | [] => []
  | Out s :: r => s :: stdout r
  | _ :: r => stdout r
  end.

(** The calls of [IcmpSendEcho] as they were made: the handle, the
    destination address, the options and the timeout. *)
Fixpoint echo_calls (tr : list event)
  : list (HANDLE * Z * IP_OPTION_INFORMATION * Z) :=
  match tr with
  | [] => []
  | Echo h dst opts t _ _ :: r => (h, dst, opts, t) :: echo_calls r
  | _ :: r => echo_calls r
  end.

(** The probes after the first one, which is the reachability probe. *)
Definition sweep_echoes (tr : list event) : list probe := tl (echoes tr).

(** Probe [p] got a reply, and it came from address [a]. *)
Definition answered_by (a : Z) (p : probe) : bool :=
  (0 <? probe_count p)%N && (probe_addr p =? a).

(** What one probe of the sweep does to the gateways. *)
Definition apply_reply (gws : list NETWORK_NODE) (p : probe) : list NETWORK_NODE :=
  if (0 <? probe_count p)%N then observe (probe_addr p) gws else gws.

(** [i; i + 1; ...], [n] values. *)
Fixpoint zrange (i : Z) (n : nat) : list Z :=
  match n with
  | O => []
  | S k => i :: zrange (i + 1) k
  end.

(** The TTL values 1 through [m - 1] in increasing order. *)
Definition ttls_below (m : Z) : list Z := zrange 1 (Z.to_nat (m - 1)).

(** [g'] is [g] with the flag unchanged or raised. *)
Definition flag_grows (g g' : NETWORK_NODE) : Prop :=
  hostname g' = hostname g /\ ip g' = ip g /\
  (replied g = true -> replied g' = true).

(** ** Vocabulary of the specifications *)

(** A list of events that are all text. *)
Definition only_text (tr : list event) : Prop :=
  echoes tr = [] /\ creates tr = [] /\ closes tr = [].

(** [g'] is [g] after the probes [ps]: same name and address, and the
    flag raised exactly when it was up already or one of the probes was
    answered from [g]'s address. *)
Definition marked_by (ps : list probe) (g g' : NETWORK_NODE) : Prop :=
  hostname g' = hostname g /\ ip g' = ip g /\
  replied g' = replied g || existsb (answered_by (ip g)) ps.

(** The state in which probing starts: no flag raised, nothing but text
    written. *)
Definition fresh_flags (v : Vars) : Prop :=
  replied (destination v) = false /\
  Forall (fun g => replied g = false) (gateways v) /\
  only_text (trace v).

(** A call of [IcmpSendEcho] on handle [h] to address [dst] with the given
    type of service, flags, options size and timeout (any TTL). *)
Definition call_with (h : HANDLE) (dst tos flags size t : Z)
  (c : HANDLE * Z * IP_OPTION_INFORMATION * Z) : Prop :=
  let '(h', d, o, t') := c in
  h' = h /\ d = dst /\ Tos o = tos /\ Flags o = flags /\ OptionsSize o = size /\ t' = t.

Section Specification.

Context {W : Win32}.

(** The command line as [main] parses it: [argv] without the program name,
    from the initial values of the variables. *)
Definition parsed (argv : list string) : outcome Vars :=
  parse_args (skipn 1 argv) initial_vars.

(** ** The executions of [main]

    [run_of argv w r]: [r] is the outcome of the program on the argument
    vector [argv] in the world [w], described path by path.  [v1] is the
    state of the variables after parsing, [v] at the [return]. *)

Inductive run_of (argv : list string) (w : World)
  : outcome (Z * Vars * World) -> Prop :=
| run_no_arguments :
    (List.length argv < 2)%nat ->
    run_of argv w (Done (1, printHelp initial_vars, w))
| run_out_of_range (i : nat) :
    (2 <= List.length argv)%nat ->
    parsed argv = OutOfRange i ->
    run_of argv w (OutOfRange i)
| run_no_destination (v1 v : Vars) (txt : list event) :
    (2 <= List.length argv)%nat ->
    parsed argv = Done v1 ->
    hostname (destination v1) = "" ->
    trace v = (trace v1 ++ txt)%list -> only_text txt ->
    gateways v = gateways v1 -> destination v = destination v1 ->
    run_of argv w (Done (2, v, w))
| run_no_icmp (v1 v : Vars) (w1 : World) (txt1 txt2 : list event) :
    (2 <= List.length argv)%nat ->
    parsed argv = Done v1 ->
    hostname (destination v1) <> "" ->
    IcmpCreateFile w = (INVALID_HANDLE_VALUE, w1) ->
    trace v = (trace v1 ++ txt1 ++ Create INVALID_HANDLE_VALUE :: txt2)%list ->
    only_text txt1 -> only_text txt2 ->
    gateways v = gateways v1 -> destination v = destination v1 ->
    run_of argv w (Done (3, v, w1))
| run_silent (v1 v : Vars) (h : HANDLE) (w1 w2 : World) (buf : Z)
    (txt1 txt2 : list event) :
    (2 <= List.length argv)%nat ->
    parsed argv = Done v1 ->
    hostname (destination v1) <> "" ->
    IcmpCreateFile w = (h, w1) -> h <> INVALID_HANDLE_VALUE ->
    reachability_probe h v1 w1 = (0%N, buf, w2) ->
    trace v = (trace v1 ++ txt1 ++ Create h :: reachability_event h v1 0 buf
                 :: txt2 ++ [Close h])%list ->
    only_text txt1 -> only_text txt2 ->
    gateways v = gateways v1 -> destination v = destination v1 ->
    run_of argv w (Done (4, v, IcmpCloseHandle h w2))
| run_answered (v1 v : Vars) (h : HANDLE) (w1 w2 w3 : World) (count : N) (buf : Z)
    (txt1 txt2 ext : list event) :
    (2 <= List.length argv)%nat ->
    parsed argv = Done v1 ->
    hostname (destination v1) <> "" ->
    IcmpCreateFile w = (h, w1) -> h <> INVALID_HANDLE_VALUE ->
    reachability_probe h v1 w1 = (count, buf, w2) -> count <> 0%N ->
    trace v = (trace v1 ++ txt1 ++ Create h :: reachability_event h v1 count buf
                 :: txt2 ++ ext ++ report v ++ [Close h])%list ->
    only_text txt1 -> only_text txt2 ->
    creates ext = [] -> closes ext = [] ->
    (gateways v1 = [] -> ext = []) ->
    (gateways v1 <> [] ->
       map probe_ttl (echoes ext) = map to_uchar (ttls_below (max_hops v1))) ->
    gateways v = fold_left apply_reply (echoes ext) (gateways v1) ->
    destination v = set_replied true (destination v1) ->
    max_hops v = max_hops v1 ->
    run_of argv w (Done (0, v, IcmpCloseHandle h w3)).

(** [exits argv w c]: the table of exit codes.  [c] is 1 when no argument
    is given; 2 when parsing leaves the destination unset; 3 when
    [IcmpCreateFile] returns [INVALID_HANDLE_VALUE]; 4 when the
    reachability probe gets no reply; 0 otherwise. *)
Inductive exits (argv : list string) (w : World) : Z -> Prop :=
| exit_no_arguments :
    (List.length argv < 2)%nat -> exits argv w 1
| exit_no_destination (v1 : Vars) :
    (2 <= List.length argv)%nat -> parsed argv = Done v1 ->
    hostname (destination v1) = "" -> exits argv w 2
| exit_no_icmp (v1 : Vars) :
    (2 <= List.length argv)%nat -> parsed argv = Done v1 ->
    hostname (destination v1) <> "" ->
    fst (IcmpCreateFile w) = INVALID_HANDLE_VALUE -> exits argv w 3
| exit_no_reply (v1 : Vars) :
    (2 <= List.length argv)%nat -> parsed argv = Done v1 ->
    hostname (destination v1) <> "" ->
    fst (IcmpCreateFile w) <> INVALID_HANDLE_VALUE ->
    fst (fst (reachability_probe (fst (IcmpCreateFile w)) v1
                                 (snd (IcmpCreateFile w)))) = 0%N ->
    exits argv w 4
| exit_report (v1 : Vars) :
    (2 <= List.length argv)%nat -> parsed argv = Done v1 ->
    hostname (destination v1) <> "" ->
    fst (IcmpCreateFile w) <> INVALID_HANDLE_VALUE ->
    fst (fst (reachability_probe (fst (IcmpCreateFile w)) v1
                                 (snd (IcmpCreateFile w)))) <> 0%N ->
    exits argv w 0.

(** ** What an execution that returns lets one observe

    [observed argv code v]: the exit code and, read from the trace at the
    [return], the probes sent and the handles created and closed. *)

Inductive observed (argv : list string) : Z -> Vars -> Prop :=
| observed_1 :
    (List.length argv < 2)%nat ->
    observed argv 1 (printHelp initial_vars)
| observed_2 (v1 v : Vars) :
    parsed argv = Done v1 ->
    echoes (trace v) = [] -> creates (trace v) = [] -> closes (trace v) = [] ->
    gateways v = gateways v1 -> destination v = destination v1 ->
    observed argv 2 v
| observed_3 (v1 v : Vars) :
    parsed argv = Done v1 ->
    echoes (trace v) = [] -> creates (trace v) = [INVALID_HANDLE_VALUE] ->
    closes (trace v) = [] ->
    gateways v = gateways v1 -> destination v = destination v1 ->
    observed argv 3 v
| observed_4 (v1 v : Vars) (h : HANDLE) (buf : Z) (before : list event) :
    parsed argv = Done v1 -> h <> INVALID_HANDLE_VALUE ->
    echoes (trace v) = [(to_uchar (max_hops v1), 0%N, buf)] ->
    creates (trace v) = [h] -> closes (trace v) = [h] ->
    trace v = (before ++ [Close h])%list ->
    gateways v = gateways v1 -> destination v = destination v1 ->
    observed argv 4 v
| observed_0 (v1 v : Vars) (h : HANDLE) (count : N) (buf : Z) (ps : list probe)
    (before : list event) :
    parsed argv = Done v1 -> h <> INVALID_HANDLE_VALUE -> count <> 0%N ->
    echoes (trace v) = (to_uchar (max_hops v1), count, buf) :: ps ->
    creates (trace v) = [h] -> closes (trace v) = [h] ->
    trace v = (before ++ report v ++ [Close h])%list ->
    (gateways v1 = [] -> ps = []) ->
    (gateways v1 <> [] ->
       map probe_ttl ps = map to_uchar (ttls_below (max_hops v1))) ->
    gateways v = fold_left apply_reply ps (gateways v1) ->
    destination v = set_replied true (destination v1) ->
    max_hops v = max_hops v1 ->
    observed argv 0 v.

(** The four flags whose branch advances the loop index once more
    ([a++] in the body, besides the [a++] of the [for]). *)
Definition takes_value (tok : string) : bool :=
  ((tok =? "-d") || (tok =? "-gw") || (tok =? "-ttl") || (tok =? "-timeout"))%string.

(** The indices of [args] at which the parsing loop tests for a flag, from
    index [a] on: after a value-taking flag the next one is two places
    further, after any other token one place. *)
Fixpoint flag_indices (fuel : nat) (args : list string) (a : nat) : list nat :=
  match fuel with
  | O => []
  | S fuel' =>
      match nth_error args a with
      | Some tok =>
          a :: flag_indices fuel' args (if takes_value tok then a + 2 else a + 1)
      | None => []
      end
  end.

Definition flags_seen (args : list string) : list nat :=
  flag_indices (List.length args) args 0.

(** The value a variable set by the flag [name] ends with: going through
    the indices [idxs] in order, every index holding [name] sets it to
    [atoi] of the token two places further; [default] is what it starts
    with. *)
Definition value_after (args : list string) (name : string) (idxs : list nat)
  (default : Z) : Z :=
  fold_left (fun acc p =>
               if (nth p args "" =? name)%string
               then atoi (nth (p + 2) args "") else acc)
            idxs default.

(** The node the branch [-gw] appends for the flag at index [p]: the
    address [InetPtonA] stored in the zeroed buffer for the token after the
    flag, that token as name when [InetPtonA] returned 1 and no name
    otherwise, the flag false. *)
Definition gateway_at (args : list string) (p : nat) : NETWORK_NODE :=
  let nxt := nth (p + 1) args "" in
  mkNode (if fst (InetPtonA nxt 0) =? 1 then nxt else "")
         (snd (InetPtonA nxt 0)) false.

(** Every [-d] and [-gw] of [args] is followed by a token, and every
    [-ttl] and [-timeout] by two. *)
Definition flags_have_values (args : list string) : Prop :=
  forall a tok, nth_error args a = Some tok ->
    (tok = "-d" \/ tok = "-gw" -> (a + 1 < List.length args)%nat) /\
    (tok = "-ttl" \/ tok = "-timeout" -> (a + 2 < List.length args)%nat).

(** Where the values of the variables come from when parsing ends. *)
Definition parse_origin (args : list string) (v : Vars) : Prop :=
  (max_hops v = 30 \/
   exists a val, nth_error args a = Some "-ttl" /\
                 nth_error args (a + 2) = Some val /\ max_hops v = atoi val) /\
  (timeout v = 10000 \/
   exists a val, nth_error args a = Some "-timeout" /\
                 nth_error args (a + 2) = Some val /\ timeout v = atoi val) /\
  (destination v = empty_node \/
   exists a, nth_error args a = Some "-d") /\
  (hostname (destination v) = "" \/
   exists a buf, nth_error args a = Some "-d" /\
                 nth_error args (a + 1) = Some (hostname (destination v)) /\
                 fst (InetPtonA (hostname (destination v)) buf) = 1).

End Specification.

(** ** Concrete runs on the simulated platform *)

(** The variables at the [return] of a run that returned. *)
Definition final_vars {W : Win32} (r : outcome (Z * Vars * World)) : Vars :=
  match r with
  | Done (_, v, _) => v
  | _ => initial_vars
  end.

(** A route of three routers, 10.0.1.1, 10.0.2.1 and 10.0.3.1, to a
    destination that answers. *)
Definition three_hops : Win32 :=
  SimNet true [Some 16842762; Some 16908298; Some 16973834] true.

(** The same route to a destination that is down. *)
Definition dead_end : Win32 :=
  SimNet true [Some 16842762; Some 16908298; Some 16973834] false.

(** Twenty-nine routers that never answer, then the destination. *)
Definition silent_route : Win32 := SimNet true (repeat None 29) true.

Definition argv_two_gateways : list string :=
  ["routecheck"; "-d"; "10.0.0.9"; "-gw"; "10.0.2.1"; "-gw"; "10.0.7.7"; "-gw"; "10.0.2.1"].

Definition argv_gateway_is_destination : list string :=
  ["routecheck"; "-d"; "10.0.0.9"; "-gw"; "10.0.0.9"].

Definition argv_258_hops : list string :=
  ["routecheck"; "-d"; "10.0.0.9"; "-gw"; "10.0.2.1"; "-ttl"; "258"; "258"].

Definition argv_ttl_5_then_7 : list string :=
  ["routecheck"; "-d"; "10.0.0.9"; "-ttl"; "5"; "7"].

Definition argv_bad_gateway : list string :=
  ["routecheck"; "-d"; "10.0.0.9"; "-gw"; "bogus"].

Definition argv_verbose_last : list string :=
  ["routecheck"; "-d"; "10.0.0.9"; "-gw"; "bogus"; "-v"].

Definition argv_no_destination : list string :=
  ["routecheck"; "-gw"; "10.0.2.1"].

(** A platform on which [IcmpCreateFile] fails. *)
Definition no_icmp : Win32 :=
  SimNet false [Some 16842762; Some 16908298; Some 16973834] true.

(** The variables when parsing ends. *)
Definition parsed_vars {W : Win32} (argv : list string) : Vars :=
  match parsed argv with
  | Done v => v
  | _ => initial_vars
  end.

(** The variables at the [return] of each of these runs. *)
Definition run_two_gateways : Vars :=
  final_vars (main (W := three_hops) argv_two_gateways 0%nat).

Definition run_dead_end : Vars :=
  final_vars (main (W := dead_end) argv_two_gateways 0%nat).

Definition run_silent_route : Vars :=
  final_vars (main (W := silent_route) argv_gateway_is_destination 0%nat).

Definition run_258_hops : Vars :=
  final_vars (main (W := three_hops) argv_258_hops 0%nat).

Definition run_bad_gateway : Vars :=
  final_vars (main (W := three_hops) argv_bad_gateway 0%nat).

(** ** Basic facts *)

Lemma bind_Done {A B : Type} (m : outcome A) (k : A -> outcome B) (r : B) :
  bind m k = Done r -> exists x, m = Done x /\ k x = Done r.
Proof.
  destruct m as [x| |]; simpl; intro H; try discriminate.
  exists x; split; [reflexivity | exact H].
Qed.

Lemma bind_not_fuel {A B : Type} (m : outcome A) (k : A -> outcome B) :
  m <> OutOfFuel -> (forall x, m = Done x -> k x <> OutOfFuel) ->
  bind m k <> OutOfFuel.
Proof.
  destruct m as [x| |]; simpl; intros Hm Hk.
  - apply Hk; reflexivity.
  - discriminate.
  - exfalso; apply Hm; reflexivity.
Qed.

Ltac inv_bind :=
  repeat match goal with
         | H : bind _ _ = Done _ |- _ =>
             let x := fresh "x" in
             let E := fresh "E" in
             apply bind_Done in H; destruct H as (x & E & H)
         | H : Done _ = Done _ |- _ => inversion H; subst; clear H
         | H : (_, _) = (_, _) |- _ => inversion H; subst; clear H
         end.

Lemma echoes_app (a b : list event) : echoes (a ++ b) = (echoes a ++ echoes b)%list.
Proof.
  induction a as [|e a IH]; simpl; [reflexivity|].
  destruct e; simpl; rewrite IH; reflexivity.
Qed.

Lemma creates_app (a b : list event) : creates (a ++ b) = (creates a ++ creates b)%list.
Proof.
  induction a as [|e a IH]; simpl; [reflexivity|].
  destruct e; simpl; rewrite IH; reflexivity.
Qed.

Lemma closes_app (a b : list event) : closes (a ++ b) = (closes a ++ closes b)%list.
Proof.
  induction a as [|e a IH]; simpl; [reflexivity|].
  destruct e; simpl; rewrite IH; reflexivity.
Qed.

Lemma only_text_app (a b : list event) :
  only_text a -> only_text b -> only_text (a ++ b).
Proof.
  unfold only_text; intros (E1 & C1 & L1) (E2 & C2 & L2).
  rewrite echoes_app, creates_app, closes_app, E1, C1, L1, E2, C2, L2.
  repeat split; reflexivity.
Qed.

Lemma only_text_Out (s : string) : only_text [Out s].
Proof. repeat split; reflexivity. Qed.

Lemma only_text_nil : only_text [].
Proof. repeat split; reflexivity. Qed.

Lemma only_text_help : only_text help_text.
Proof. repeat split; reflexivity. Qed.

Create HintDb trace.
#[local] Hint Resolve only_text_app only_text_Out only_text_nil only_text_help : trace.


Lemma flag_grows_trans (g1 g2 g3 : NETWORK_NODE) :
  flag_grows g1 g2 -> flag_grows g2 g3 -> flag_grows g1 g3.
Proof.
  unfold flag_grows; intros (H1 & I1 & R1) (H2 & I2 & R2).
  repeat split; try congruence; auto.
Qed.


Lemma Forall2_flag_grows_trans (l1 l2 l3 : list NETWORK_NODE) :
  Forall2 flag_grows l1 l2 -> Forall2 flag_grows l2 l3 -> Forall2 flag_grows l1 l3.
Proof.
  intro H; revert l3; induction H; intros l3 H3; inversion H3; subst; constructor.
  - eapply flag_grows_trans; eassumption.
  - apply IHForall2; assumption.
Qed.

(** ** The gateway matcher *)

Lemma observe_length (a : Z) (gws : list NETWORK_NODE) :
  List.length (observe a gws) = List.length gws.
Proof. unfold observe; apply length_map. Qed.



Lemma apply_reply_marked (p : probe) (gws : list NETWORK_NODE) :
  Forall2 (marked_by [p]) gws (apply_reply gws p).
Proof.
  unfold apply_reply, marked_by, answered_by.
  induction gws as [|g gws IH]; [destruct (0 <? probe_count p)%N; constructor|].
  destruct (0 <? probe_count p)%N eqn:E; simpl in *.
  - constructor; [|exact IH].
    destruct (probe_addr p =? ip g) eqn:A; simpl;
      repeat split; rewrite ?E, ?A; simpl;
      rewrite ?orb_true_r, ?orb_false_r; reflexivity.
  - constructor; [|exact IH].
    repeat split; rewrite E; simpl; rewrite orb_false_r; reflexivity.
Qed.

Lemma marked_by_app (ps qs : list probe) (g1 g2 g3 : NETWORK_NODE) :
  marked_by ps g1 g2 -> marked_by qs g2 g3 -> marked_by (ps ++ qs) g1 g3.
Proof.
  unfold marked_by; intros (H1 & I1 & R1) (H2 & I2 & R2).
  repeat split; try congruence.
  rewrite R2, R1, I1, existsb_app, orb_assoc; reflexivity.
Qed.

Lemma Forall2_marked_by_app (ps qs : list probe) (l1 l2 l3 : list NETWORK_NODE) :
  Forall2 (marked_by ps) l1 l2 -> Forall2 (marked_by qs) l2 l3 ->
  Forall2 (marked_by (ps ++ qs)) l1 l3.
Proof.
  intro H; revert l3; induction H; intros l3 H3; inversion H3; subst; constructor.
  - eapply marked_by_app; eassumption.
  - apply IHForall2; assumption.
Qed.

Lemma Forall2_marked_by_nil (l : list NETWORK_NODE) : Forall2 (marked_by []) l l.
Proof.
  induction l; constructor; [|assumption].
  repeat split; simpl; rewrite orb_false_r; reflexivity.
Qed.


Section Properties.

Context {W : Win32}.

(** ** Argument parsing *)

Lemma fresh_flags_intro (v : Vars) :
  replied (destination v) = false ->
  Forall (fun g => replied g = false) (gateways v) ->
  only_text (trace v) -> fresh_flags v.
Proof. intros D G O; split; [|split]; assumption. Qed.

Lemma fresh_flags_initial : fresh_flags initial_vars.
Proof. apply fresh_flags_intro; simpl; auto with trace. Qed.

Lemma fresh_flags_log (es : list event) (v : Vars) :
  only_text es -> fresh_flags v -> fresh_flags (log es v).
Proof.
  intros T (D & G & O); split; [|split]; simpl; try assumption.
  apply only_text_app; assumption.
Qed.

Lemma fresh_flags_print_if_verbose (s : string) (v : Vars) :
  fresh_flags v -> fresh_flags (print_if_verbose s v).
Proof.
  unfold print_if_verbose, print; intro F.
  destruct (verbose v); [apply fresh_flags_log; auto with trace | exact F].
Qed.

Lemma fresh_flags_set_verbose (b : bool) (v : Vars) :
  fresh_flags v -> fresh_flags (set_verbose b v).
Proof. intros (D & G & O); split; [|split]; assumption. Qed.

Lemma arg_Done (args : list string) (i : nat) (s : string) :
  arg args i = Done s <-> nth_error args i = Some s.
Proof.
  unfold arg; destruct (nth_error args i); split; intro H;
    inversion H; subst; reflexivity.
Qed.

Lemma arg_OutOfRange (args : list string) (i j : nat) :
  arg args i = OutOfRange j <-> i = j /\ (List.length args <= i)%nat.
Proof.
  unfold arg; destruct (nth_error args i) eqn:E; split.
  - discriminate.
  - intros (_ & L). apply nth_error_None in L. congruence.
  - intro H; inversion H; subst. split; [reflexivity|]. apply nth_error_None; exact E.
  - intros (-> & _); reflexivity.
Qed.

Lemma arg_not_fuel (args : list string) (i : nat) : arg args i <> OutOfFuel.
Proof. unfold arg; destruct (nth_error args i); discriminate. Qed.

Lemma parse_d_fresh (args : list string) (a : nat) (v v' : Vars) :
  parse_d args a v = Done v' -> fresh_flags v -> fresh_flags v'.
Proof.
  unfold parse_d; intros H F; inv_bind.
  destruct (InetPtonA x _) as [rc buf] eqn:P.
  apply (fresh_flags_print_if_verbose ("Destination: " ++ x ++ endl)) in F.
  set (v1 := print_if_verbose _ v) in *.
  assert (F2 : fresh_flags (set_destination (set_ip buf (destination v1)) v1))
    by (destruct F as (D & G & O); apply fresh_flags_intro; assumption).
  inversion H; subst; clear H.
  destruct (negb (rc =? 1)).
  - destruct (verbose _); [|exact F2].
    unfold printHelp, print.
    repeat apply fresh_flags_log; auto with trace.
  - destruct F2 as (D & G & O); apply fresh_flags_intro; assumption.
Qed.

Lemma parse_gw_appends (args : list string) (a : nat) (v v' : Vars) :
  parse_gw args a v = Done v' ->
  exists nxt node,
    nth_error args (a + 1) = Some nxt /\
    gateways v' = (gateways v ++ [node])%list /\
    replied node = false /\
    ip node = snd (InetPtonA nxt 0) /\
    hostname node = (if fst (InetPtonA nxt 0) =? 1 then nxt else "") /\
    destination v' = destination v /\
    max_hops v' = max_hops v /\ timeout v' = timeout v /\ verbose v' = verbose v /\
    exists txt, trace v' = (trace v ++ txt)%list /\ only_text txt.
Proof.
  unfold parse_gw; intros H; inv_bind.
  apply arg_Done in E.
  exists x; simpl in H.
  destruct (InetPtonA x 0) as [rc buf] eqn:P; simpl.
  unfold print_if_verbose, printHelp, print in H.
  destruct (rc =? 1) eqn:R; simpl in H; destruct (verbose v) eqn:V; simpl in H;
    rewrite ?V in H; simpl in H; inversion H; subst; clear H; simpl;
    eexists; repeat split; simpl; try reflexivity; try assumption.
  - exists [Out ("Gateway: " ++ x ++ endl)]; split; [reflexivity | auto with trace].
  - exists []; split; [rewrite app_nil_r; reflexivity | auto with trace].
  - eexists; split; [rewrite <- !app_assoc; reflexivity|].
    repeat apply only_text_app; auto with trace.
  - exists []; split; [rewrite app_nil_r; reflexivity | auto with trace].
Qed.

Lemma parse_gw_fresh (args : list string) (a : nat) (v v' : Vars) :
  parse_gw args a v = Done v' -> fresh_flags v -> fresh_flags v'.
Proof.
  intros H (D & G & O).
  apply parse_gw_appends in H.
  destruct H as (nxt & node & _ & Hg & Hr & _ & _ & Hd & _ & _ & _ & txt & Ht & Htxt).
  apply fresh_flags_intro.
  - rewrite Hd; exact D.
  - rewrite Hg; apply Forall_app; split; [exact G | constructor; [exact Hr | constructor]].
  - rewrite Ht; apply only_text_app; assumption.
Qed.

(** [-ttl] and [-timeout] read the token two places after the flag. *)
Lemma parse_ttl_reads (args : list string) (a a' : nat) (v v' : Vars) :
  parse_ttl args a v = Done (a', v') ->
  a' = S a /\
  exists val, nth_error args (a + 2) = Some val /\
    max_hops v' = atoi val /\ timeout v' = timeout v /\
    destination v' = destination v /\ gateways v' = gateways v /\
    verbose v' = verbose v /\
    exists txt, trace v' = (trace v ++ txt)%list /\ only_text txt.
Proof.
  unfold parse_ttl; intros H; inv_bind.
  split; [reflexivity|].
  replace (S a + 1)%nat with (a + 2)%nat in E0 by lia.
  apply arg_Done in E0. exists x0; split; [exact E0|].
  destruct (verbose v) eqn:V; inv_bind; simpl; rewrite ?V; repeat split.
  - eexists; split; [reflexivity | auto with trace].
  - exists []; split; [rewrite app_nil_r; reflexivity | auto with trace].
Qed.

Lemma parse_timeout_reads (args : list string) (a a' : nat) (v v' : Vars) :
  parse_timeout args a v = Done (a', v') ->
  a' = S a /\
  exists val, nth_error args (a + 2) = Some val /\
    timeout v' = atoi val /\ max_hops v' = max_hops v /\
    destination v' = destination v /\ gateways v' = gateways v /\
    verbose v' = verbose v /\
    exists txt, trace v' = (trace v ++ txt)%list /\ only_text txt.
Proof.
  unfold parse_timeout; intros H; inv_bind.
  split; [reflexivity|].
  replace (S a + 1)%nat with (a + 2)%nat in E0 by lia.
  apply arg_Done in E0. exists x0; split; [exact E0|].
  destruct (verbose v) eqn:V; inv_bind; simpl; rewrite ?V; repeat split.
  - eexists; split; [reflexivity | auto with trace].
  - exists []; split; [rewrite app_nil_r; reflexivity | auto with trace].
Qed.

Lemma parse_arg_spec (args : list string) (a a' : nat) (v v' : Vars) :
  parse_arg args a v = Done (a', v') ->
  (a <= a')%nat /\ (fresh_flags v -> fresh_flags v').
Proof.
  unfold parse_arg; intros H; inv_bind.
  destruct (x =? "-v")%string; inv_bind.
  { split; [lia | apply fresh_flags_set_verbose]. }
  destruct (x =? "-help")%string; inv_bind.
  { split; [lia | apply fresh_flags_log; auto with trace]. }
  destruct (x =? "-d")%string; inv_bind.
  { split; [lia | eapply parse_d_fresh; eassumption]. }
  destruct (x =? "-gw")%string; inv_bind.
  { split; [lia | eapply parse_gw_fresh; eassumption]. }
  destruct (x =? "-ttl")%string.
  { apply parse_ttl_reads in H.
    destruct H as (-> & val & _ & _ & _ & Hd & Hg & _ & txt & Ht & Htxt).
    split; [lia|]. intros (D & G & O); apply fresh_flags_intro.
    - rewrite Hd; exact D.
    - rewrite Hg; exact G.
    - rewrite Ht; apply only_text_app; assumption. }
  destruct (x =? "-timeout")%string.
  { apply parse_timeout_reads in H.
    destruct H as (-> & val & _ & _ & _ & Hd & Hg & _ & txt & Ht & Htxt).
    split; [lia|]. intros (D & G & O); apply fresh_flags_intro.
    - rewrite Hd; exact D.
    - rewrite Hg; exact G.
    - rewrite Ht; apply only_text_app; assumption. }
  inv_bind. split; [lia | auto].
Qed.

Lemma parse_d_not_fuel (args : list string) (a : nat) (v : Vars) :
  parse_d args a v <> OutOfFuel.
Proof.
  unfold parse_d. apply bind_not_fuel; [apply arg_not_fuel|].
  intros x _. destruct (InetPtonA x _); discriminate.
Qed.

Lemma parse_gw_not_fuel (args : list string) (a : nat) (v : Vars) :
  parse_gw args a v <> OutOfFuel.
Proof.
  unfold parse_gw. apply bind_not_fuel; [apply arg_not_fuel|].
  intros x _. destruct (InetPtonA x _). destruct (negb _); discriminate.
Qed.

Lemma parse_arg_not_fuel (args : list string) (a : nat) (v : Vars) :
  parse_arg args a v <> OutOfFuel.
Proof.
  unfold parse_arg, parse_ttl, parse_timeout.
  apply bind_not_fuel; [apply arg_not_fuel|]. intros x _.
  repeat match goal with
         | |- (if ?c then _ else _) <> _ => destruct c
         | |- bind _ _ <> OutOfFuel => apply bind_not_fuel; [|intros ? _]
         | |- arg _ _ <> OutOfFuel => apply arg_not_fuel
         | |- parse_d _ _ _ <> OutOfFuel => apply parse_d_not_fuel
         | |- parse_gw _ _ _ <> OutOfFuel => apply parse_gw_not_fuel
         | |- Done _ <> OutOfFuel => discriminate
         end.
Qed.

(** The loop of the embedding never stops for lack of fuel: the index
    grows at every iteration. *)
Lemma parse_loop_not_fuel (fuel : nat) (args : list string) (a : nat) (v : Vars) :
  (List.length args <= a + fuel)%nat -> parse_loop fuel args a v <> OutOfFuel.
Proof.
  revert a v; induction fuel as [|fuel IH]; intros a v L; simpl.
  - destruct (a <? List.length args)%nat eqn:E; [|discriminate].
    apply Nat.ltb_lt in E; lia.
  - destruct (a <? List.length args)%nat eqn:E; [|discriminate].
    apply bind_not_fuel; [apply parse_arg_not_fuel|].
    intros [a' v'] H. apply parse_arg_spec in H. destruct H as (La & _).
    apply IH; lia.
Qed.

Lemma parse_loop_fresh (fuel : nat) (args : list string) (a : nat) (v v' : Vars) :
  parse_loop fuel args a v = Done v' -> fresh_flags v -> fresh_flags v'.
Proof.
  revert a v; induction fuel as [|fuel IH]; intros a v H F; simpl in H;
    destruct (a <? List.length args)%nat; try discriminate; inv_bind; try assumption.
  destruct x as [a' v1]. apply parse_arg_spec in E. destruct E as (_ & F1).
  eapply IH; [eassumption | auto].
Qed.

Lemma parse_args_not_fuel (args : list string) (v : Vars) :
  parse_args args v <> OutOfFuel.
Proof. unfold parse_args; apply parse_loop_not_fuel; lia. Qed.

Lemma parse_args_fresh (args : list string) (v : Vars) :
  parse_args args initial_vars = Done v -> fresh_flags v.
Proof.
  unfold parse_args; intro H.
  eapply parse_loop_fresh; [exact H|].
  destruct (existsb _ args);
    [apply fresh_flags_set_verbose|]; apply fresh_flags_initial.
Qed.

(** ** The hop sweep *)

Lemma only_text_observe_messages (addr i : Z) (gws : list NETWORK_NODE) :
  only_text (observe_messages addr i gws).
Proof.
  unfold observe_messages.
  induction gws as [|g gws IH]; simpl; [apply only_text_nil|].
  apply only_text_app; [|exact IH].
  destruct (addr =? ip g); auto with trace.
Qed.

Lemma fold_apply_reply_marked (ps : list probe) (gws : list NETWORK_NODE) :
  Forall2 (marked_by ps) gws (fold_left apply_reply ps gws).
Proof.
  revert gws; induction ps as [|p ps IH]; intro gws; simpl.
  - apply Forall2_marked_by_nil.
  - change (p :: ps) with ([p] ++ ps)%list.
    eapply Forall2_marked_by_app; [apply apply_reply_marked | apply IH].
Qed.

(** One probe of the sweep: one [Echo] event with the TTL field set to
    the loop index reduced to 8 bits, then text only; the gateways are
    updated from the reply and nothing else changes. *)
Lemma sweep_step_spec (h : HANDLE) (opts opts1 : IP_OPTION_INFORMATION)
  (i buf buf1 : Z) (v v1 : Vars) (w w1 : World) :
  sweep_step h opts i buf v w = (opts1, buf1, v1, w1) ->
  exists count txt,
    trace v1 = (trace v ++ Echo h (ip (destination v)) opts1
                                (to_dword (timeout v)) count buf1 :: txt)%list /\
    only_text txt /\
    Ttl opts1 = to_uchar i /\
    gateways v1 = apply_reply (gateways v) (to_uchar i, count, buf1) /\
    destination v1 = destination v /\ max_hops v1 = max_hops v /\
    timeout v1 = timeout v /\ verbose v1 = verbose v.
Proof.
  unfold sweep_step; intro H.
  destruct (IcmpSendEcho _ _ _ _ _ _ _) as [[count b] w'] eqn:S.
  inversion H; subst; clear H.
  exists count. unfold apply_reply, probe_count, probe_addr; simpl.
  destruct (0 <? count)%N; simpl.
  - eexists; repeat split; [rewrite <- app_assoc; reflexivity| | |];
      destruct (verbose v); try apply only_text_observe_messages;
      try reflexivity.
  - exists []; repeat split; reflexivity.
Qed.

Lemma zrange_app (i : Z) (n m : nat) :
  zrange i (n + m) = (zrange i n ++ zrange (i + Z.of_nat n) m)%list.
Proof.
  revert i; induction n as [|n IH]; intro i; simpl.
  - f_equal; lia.
  - rewrite IH; do 3 f_equal; lia.
Qed.

Lemma in_zrange (i x : Z) (n : nat) :
  In x (zrange i n) <-> i <= x < i + Z.of_nat n.
Proof.
  revert i; induction n as [|n IH]; intro i; simpl; [lia|].
  rewrite IH; lia.
Qed.

Lemma zrange_sorted (i : Z) (n : nat) : StronglySorted Z.lt (zrange i n).
Proof.
  revert i; induction n as [|n IH]; intro i; simpl; constructor; [apply IH|].
  apply Forall_forall; intros x Hx; apply in_zrange in Hx; lia.
Qed.

(** The sweep from index [i]: what it appends to the trace and what it
    does to the variables. *)
Lemma sweep_spec (fuel : nat) (h : HANDLE) (opts : IP_OPTION_INFORMATION)
  (i buf : Z) (v v' : Vars) (w w' : World) :
  sweep fuel h opts i buf v w = Done (v', w') ->
  exists ext,
    trace v' = (trace v ++ ext)%list /\
    creates ext = [] /\ closes ext = [] /\
    map probe_ttl (echoes ext) =
      map to_uchar (zrange i (Z.to_nat (max_hops v - i))) /\
    gateways v' = fold_left apply_reply (echoes ext) (gateways v) /\
    destination v' = destination v /\ max_hops v' = max_hops v /\
    timeout v' = timeout v /\ verbose v' = verbose v.
Proof.
  revert opts i buf v w; induction fuel as [|fuel IH]; intros opts i buf v w H;
    simpl in H; destruct (i <? max_hops v) eqn:C; try discriminate.
  - inversion H; subst; clear H. apply Z.ltb_ge in C.
    exists []; rewrite app_nil_r.
    replace (Z.to_nat (max_hops v' - i)) with O by lia.
    repeat split; reflexivity.
  - apply Z.ltb_lt in C.
    destruct (sweep_step h opts i buf v w) as [[[opts1 buf1] v1] w1] eqn:S.
    apply sweep_step_spec in S.
    destruct S as (count & txt & Ht & (Te & Tc & Tl) & Httl & Hg & Hd & Hm & Hto & Hv).
    apply IH in H.
    destruct H as (ext & Ht' & Hc' & Hl' & Hp' & Hg' & Hd' & Hm' & Hto' & Hv').
    exists (Echo h (ip (destination v)) opts1 (to_dword (timeout v)) count buf1
              :: txt ++ ext)%list.
    repeat split.
    + rewrite Ht', Ht, <- app_assoc; reflexivity.
    + simpl; rewrite creates_app, Tc, Hc'; reflexivity.
    + simpl; rewrite closes_app, Tl, Hl'; reflexivity.
    + simpl; rewrite echoes_app, Te; simpl.
      replace (Z.to_nat (max_hops v - i)) with (S (Z.to_nat (max_hops v - (i + 1)))) by lia.
      simpl; rewrite Hp', Hm; unfold probe_ttl; simpl; rewrite Httl; reflexivity.
    + simpl; rewrite echoes_app, Te; simpl.
      rewrite Hg', Hg, Httl; reflexivity.
    + congruence.
    + congruence.
    + congruence.
    + congruence.
  - inversion H; subst; clear H. apply Z.ltb_ge in C.
    exists []; rewrite app_nil_r.
    replace (Z.to_nat (max_hops v' - i)) with O by lia.
    repeat split; reflexivity.
Qed.

(** The sweep terminates within the fuel [main] gives it. *)
Lemma sweep_total (fuel : nat) (h : HANDLE) (opts : IP_OPTION_INFORMATION)
  (i buf : Z) (v : Vars) (w : World) :
  (Z.to_nat (max_hops v - i) <= fuel)%nat ->
  exists v' w', sweep fuel h opts i buf v w = Done (v', w').
Proof.
  revert opts i buf v w; induction fuel as [|fuel IH]; intros opts i buf v w L;
    simpl; destruct (i <? max_hops v) eqn:C.
  - apply Z.ltb_lt in C; lia.
  - eauto.
  - apply Z.ltb_lt in C.
    destruct (sweep_step h opts i buf v w) as [[[opts1 buf1] v1] w1] eqn:S.
    apply sweep_step_spec in S.
    destruct S as (count & txt & _ & _ & _ & _ & _ & Hm & _ & _).
    apply IH; rewrite Hm; lia.
  - eauto.
Qed.

(** ** The paths through [probe_route] *)

Lemma reachability_probe_ext (h : HANDLE) (v v' : Vars) (w : World) :
  ip (destination v) = ip (destination v') -> max_hops v = max_hops v' ->
  timeout v = timeout v' ->
  reachability_probe h v w = reachability_probe h v' w.
Proof.
  unfold reachability_probe, initial_options; intros -> -> ->; reflexivity.
Qed.

(** No reply to the reachability probe: the handle is closed and 4 is
    returned; the probe is the only one. *)
Lemma probe_route_silent (h : HANDLE) (v : Vars) (w w1 : World) (buf : Z) :
  reachability_probe h v w = (0%N, buf, w1) ->
  exists v' txt,
    probe_route h v w = Done (4, v', IcmpCloseHandle h w1) /\
    trace v' = (trace v ++ reachability_event h v 0 buf :: txt ++ [Close h])%list /\
    only_text txt /\
    gateways v' = gateways v /\ destination v' = destination v /\
    max_hops v' = max_hops v /\ timeout v' = timeout v /\ verbose v' = verbose v.
Proof.
  intro R; unfold probe_route; rewrite R; simpl.
  unfold print_if_verbose, print; simpl.
  destruct (verbose v) eqn:V; simpl; rewrite ?V.
  - eexists; eexists [Out _]; split; [reflexivity|]; simpl.
    split; [rewrite <- !app_assoc; reflexivity|].
    split; [apply only_text_Out|]. repeat split; assumption.
  - eexists; exists []; split; [reflexivity|]; simpl.
    split; [rewrite <- !app_assoc; reflexivity|].
    split; [apply only_text_nil|]. repeat split; assumption.
Qed.

(** A reply to the reachability probe: the destination's flag is raised,
    the sweep runs when there is a gateway, the report is written, the
    handle is closed and 0 is returned. *)
Lemma probe_route_answered (h : HANDLE) (v : Vars) (w w1 : World) (count : N) (buf : Z) :
  reachability_probe h v w = (count, buf, w1) -> count <> 0%N ->
  exists v' w2 txt ext,
    probe_route h v w = Done (0, v', IcmpCloseHandle h w2) /\
    trace v' = (trace v ++ reachability_event h v count buf
                  :: txt ++ ext ++ report v' ++ [Close h])%list /\
    only_text txt /\ creates ext = [] /\ closes ext = [] /\
    (gateways v = [] -> ext = []) /\
    (gateways v <> [] ->
       map probe_ttl (echoes ext) = map to_uchar (ttls_below (max_hops v))) /\
    gateways v' = fold_left apply_reply (echoes ext) (gateways v) /\
    destination v' = set_replied true (destination v) /\
    max_hops v' = max_hops v /\ timeout v' = timeout v /\ verbose v' = verbose v.
Proof.
  intros R NZ; unfold probe_route; rewrite R.
  apply N.eqb_neq in NZ; rewrite NZ.
  set (line := if (0 <? count)%N then _ else _).
  set (v1 := log _ v).
  set (v2 := print_if_verbose line v1).
  set (v3 := set_destination _ v2).
  assert (T2 : exists txt, trace v2 = (trace v ++ reachability_event h v count buf :: txt)%list
                           /\ only_text txt).
  { unfold v2, print_if_verbose, print.
    destruct (verbose v1); simpl.
    - exists [Out line]; split; [rewrite <- app_assoc; reflexivity | apply only_text_Out].
    - exists []; split; [reflexivity | apply only_text_nil]. }
  destruct T2 as (txt & T2 & Otxt).
  assert (F2 : gateways v2 = gateways v /\ destination v2 = destination v /\
               max_hops v2 = max_hops v /\ timeout v2 = timeout v /\
               verbose v2 = verbose v).
  { unfold v2, print_if_verbose, print. destruct (verbose v1); simpl; repeat split. }
  destruct F2 as (G2 & D2 & M2 & To2 & V2).
  destruct (0 <? List.length (gateways v3))%nat eqn:GS.
  - destruct (sweep_total (Z.to_nat (max_hops v3)) h (initial_options v) 1 buf v3 w1)
      as (v4 & w2 & S); [lia|].
    rewrite S; simpl.
    apply sweep_spec in S.
    destruct S as (ext & Ht & Hc & Hl & Hp & Hg & Hd & Hm & Hto & Hv).
    simpl in Ht, Hg, Hd, Hm, Hto, Hv, Hp.
    eexists; exists w2, txt, ext; split; [reflexivity|]; simpl.
    split; [rewrite Ht, T2, <- !app_assoc; simpl; rewrite <- ?app_assoc; reflexivity|].
    split; [exact Otxt|]. split; [exact Hc|]. split; [exact Hl|].
    split.
    { intro E. simpl in GS. rewrite G2, E in GS. discriminate. }
    split.
    { intros _. rewrite Hp, M2. reflexivity. }
    rewrite Hg, Hd, Hm, Hto, Hv, G2, D2, M2, To2, V2. repeat split; reflexivity.
  - simpl in GS. rewrite G2 in GS.
    assert (E : gateways v = []) by (destruct (gateways v); [reflexivity | discriminate]).
    simpl.
    eexists; exists w1, txt, []; split; [reflexivity|]; simpl.
    split; [rewrite T2, <- !app_assoc; simpl; reflexivity|].
    split; [exact Otxt|]. split; [reflexivity|]. split; [reflexivity|].
    split; [reflexivity|].
    split; [intro N; contradiction|].
    rewrite G2, D2, M2, To2, V2. repeat split; reflexivity.
Qed.

(** ** The paths through [main] *)

Lemma main_no_arguments (argv : list string) (w : World) :
  (List.length argv < 2)%nat ->
  main argv w = Done (1, printHelp initial_vars, w).
Proof.
  intro L; unfold main.
  destruct (Z.of_nat (List.length argv) <? 2) eqn:C; [reflexivity|].
  apply Z.ltb_ge in C; lia.
Qed.

Lemma main_parses (argv : list string) (w : World) :
  (2 <= List.length argv)%nat ->
  main argv w =
  (v1 <- parsed argv ;;
   if (hostname (destination v1) =? "")%string then
     let v2 := print ("No destination specified" ++ endl) v1 in
     Done (2, if verbose v2 then printHelp v2 else v2, w)
   else
     let v2 := notice_no_gateways v1 in
     let '(icmp_handle, w1) := IcmpCreateFile w in
     let v3 := log [Create icmp_handle] v2 in
     if icmp_handle =? INVALID_HANDLE_VALUE then
       Done (3, print_if_verbose ("Could not create ICMP handle" ++ endl) v3, w1)
     else probe_route icmp_handle v3 w1).
Proof.
  intro L; unfold main, parsed.
  destruct (Z.of_nat (List.length argv) <? 2) eqn:C; [|reflexivity].
  apply Z.ltb_lt in C; lia.
Qed.

Lemma main_parse_out_of_range (argv : list string) (w : World) (i : nat) :
  (2 <= List.length argv)%nat -> parsed argv = OutOfRange i ->
  main argv w = OutOfRange i.
Proof. intros L P; rewrite main_parses, P by exact L; reflexivity. Qed.

Lemma main_no_destination (argv : list string) (w : World) (v1 : Vars) :
  (2 <= List.length argv)%nat -> parsed argv = Done v1 ->
  hostname (destination v1) = "" ->
  exists v txt,
    main argv w = Done (2, v, w) /\
    trace v = (trace v1 ++ txt)%list /\ only_text txt /\
    gateways v = gateways v1 /\ destination v = destination v1.
Proof.
  intros L P H; rewrite main_parses, P by exact L; simpl; rewrite H; simpl.
  destruct (verbose v1); eexists; eexists; (split; [reflexivity|]); simpl;
    rewrite <- ?app_assoc; (split; [reflexivity|]);
    (split; [|split; reflexivity]); auto with trace.
Qed.

Lemma notice_no_gateways_spec (v : Vars) :
  exists txt,
    trace (notice_no_gateways v) = (trace v ++ txt)%list /\ only_text txt /\
    gateways (notice_no_gateways v) = gateways v /\
    destination (notice_no_gateways v) = destination v /\
    max_hops (notice_no_gateways v) = max_hops v /\
    timeout (notice_no_gateways v) = timeout v /\
    verbose (notice_no_gateways v) = verbose v.
Proof.
  unfold notice_no_gateways.
  destruct (List.length (gateways v) =? 0)%nat; simpl.
  - destruct (verbose v) eqn:V; simpl.
    + eexists (Out _ :: help_text); rewrite <- app_assoc.
      split; [reflexivity|]. split; [|repeat split; exact V].
      unfold only_text; repeat split.
    + eexists [Out _]. split; [reflexivity|]. split; [|repeat split; exact V].
      apply only_text_Out.
  - exists []; rewrite app_nil_r; split; [reflexivity|].
    split; [|repeat split]; auto with trace.
Qed.

Lemma main_no_icmp (argv : list string) (w w1 : World) (v1 : Vars) :
  (2 <= List.length argv)%nat -> parsed argv = Done v1 ->
  hostname (destination v1) <> "" ->
  IcmpCreateFile w = (INVALID_HANDLE_VALUE, w1) ->
  exists v txt1 txt2,
    main argv w = Done (3, v, w1) /\
    trace v = (trace v1 ++ txt1 ++ Create INVALID_HANDLE_VALUE :: txt2)%list /\
    only_text txt1 /\ only_text txt2 /\
    gateways v = gateways v1 /\ destination v = destination v1.
Proof.
  intros L P H C; rewrite main_parses, P by exact L; simpl.
  apply String.eqb_neq in H; rewrite H, C; simpl.
  destruct (notice_no_gateways_spec v1) as (txt & Ht & Ot & Hg & Hd & _ & _ & Hv).
  unfold print_if_verbose, print; simpl.
  destruct (verbose (notice_no_gateways v1)); eexists; exists txt; eexists;
    (split; [reflexivity|]); simpl; rewrite Ht, <- ?app_assoc; simpl;
    (split; [reflexivity|]); (split; [exact Ot|]);
    (split; [|split; assumption]); auto with trace.
Qed.

Lemma main_probes (argv : list string) (w w1 : World) (v1 : Vars) (h : HANDLE) :
  (2 <= List.length argv)%nat -> parsed argv = Done v1 ->
  hostname (destination v1) <> "" ->
  IcmpCreateFile w = (h, w1) -> h <> INVALID_HANDLE_VALUE ->
  exists v3 txt,
    main argv w = probe_route h v3 w1 /\
    trace v3 = (trace v1 ++ txt ++ [Create h])%list /\ only_text txt /\
    gateways v3 = gateways v1 /\ destination v3 = destination v1 /\
    max_hops v3 = max_hops v1 /\ timeout v3 = timeout v1 /\
    verbose v3 = verbose v1.
Proof.
  intros L P H C NI; rewrite main_parses, P by exact L; simpl.
  apply String.eqb_neq in H; rewrite H, C; simpl.
  apply Z.eqb_neq in NI; rewrite NI.
  destruct (notice_no_gateways_spec v1) as (txt & Ht & Ot & Hg & Hd & Hm & Hto & Hv).
  eexists; exists txt; split; [reflexivity|]; simpl.
  rewrite Ht, <- app_assoc.
  split; [reflexivity|]. split; [exact Ot|]. repeat split; assumption.
Qed.

Lemma reachability_event_ext (h : HANDLE) (v v' : Vars) (count : N) (buf : Z) :
  ip (destination v) = ip (destination v') -> max_hops v = max_hops v' ->
  timeout v = timeout v' ->
  reachability_event h v count buf = reachability_event h v' count buf.
Proof.
  unfold reachability_event, initial_options; intros -> -> ->; reflexivity.
Qed.

(** Every execution of [main] is one of the paths of [run_of]; in
    particular [main] never runs out of fuel. *)
Lemma main_run (argv : list string) (w : World) : run_of argv w (main argv w).
Proof.
  destruct (Nat.lt_ge_cases (List.length argv) 2) as [L|L].
  { rewrite main_no_arguments by exact L. apply run_no_arguments; exact L. }
  destruct (parsed argv) as [v1|i|] eqn:P.
  2: { rewrite (main_parse_out_of_range argv w i L P).
       apply run_out_of_range; assumption. }
  2: { exfalso; exact (parse_args_not_fuel _ _ P). }
  destruct (string_dec (hostname (destination v1)) "") as [Hn|Hn].
  { destruct (main_no_destination argv w v1 L P Hn) as (v & txt & M & Ht & Ot & Hg & Hd).
    rewrite M. eapply run_no_destination; eassumption. }
  destruct (IcmpCreateFile w) as [h w1] eqn:C.
  destruct (Z.eq_dec h INVALID_HANDLE_VALUE) as [Hi|Hi].
  { subst h.
    destruct (main_no_icmp argv w w1 v1 L P Hn C)
      as (v & txt1 & txt2 & M & Ht & O1 & O2 & Hg & Hd).
    rewrite M. eapply run_no_icmp; eassumption. }
  destruct (main_probes argv w w1 v1 h L P Hn C Hi)
    as (v3 & txt1 & M & Ht3 & O1 & Hg3 & Hd3 & Hm3 & Hto3 & Hv3).
  rewrite M.
  assert (Hip : ip (destination v3) = ip (destination v1)) by (rewrite Hd3; reflexivity).
  destruct (reachability_probe h v1 w1) as [[count buf] w2] eqn:R.
  pose proof R as R3.
  rewrite <- (reachability_probe_ext h v3 v1 w1 Hip Hm3 Hto3) in R3.
  destruct (N.eq_dec count 0) as [Z0|NZ].
  - subst count.
    destruct (probe_route_silent h v3 w1 w2 buf R3)
      as (v & txt2 & Q & Ht & O2 & Hg & Hd & _).
    rewrite Q.
    eapply run_silent with (v1 := v1) (txt1 := txt1) (txt2 := txt2);
      try eassumption; try congruence.
    rewrite Ht, Ht3, (reachability_event_ext h v3 v1 0 buf Hip Hm3 Hto3),
      <- !app_assoc; reflexivity.
  - destruct (probe_route_answered h v3 w1 w2 count buf R3 NZ)
      as (v & w3 & txt2 & ext & Q & Ht & O2 & Hc & Hl & He & Hp & Hg & Hd & Hm & _).
    rewrite Q.
    eapply run_answered with (v1 := v1) (txt1 := txt1) (txt2 := txt2) (ext := ext);
      try eassumption; try congruence.
    + rewrite Ht, Ht3, (reachability_event_ext h v3 v1 count buf Hip Hm3 Hto3),
        <- !app_assoc; reflexivity.
    + intro E; apply He; congruence.
    + intro E; rewrite <- Hm3; apply Hp; congruence.
Qed.

(** ** Reading the trace of an execution *)

Lemma only_text_report (v : Vars) : only_text (report v).
Proof.
  unfold report, only_text; simpl.
  induction (gateways v) as [|g l (E & C & L)]; simpl; repeat split; assumption.
Qed.

Lemma echoes_text (txt rest : list event) :
  only_text txt -> echoes (txt ++ rest) = echoes rest.
Proof. intros (E & _ & _); rewrite echoes_app, E; reflexivity. Qed.

Lemma creates_text (txt rest : list event) :
  only_text txt -> creates (txt ++ rest) = creates rest.
Proof. intros (_ & C & _); rewrite creates_app, C; reflexivity. Qed.

Lemma closes_text (txt rest : list event) :
  only_text txt -> closes (txt ++ rest) = closes rest.
Proof. intros (_ & _ & L); rewrite closes_app, L; reflexivity. Qed.

Lemma echoes_create_reach (h : HANDLE) (v : Vars) (c : N) (b : Z) (r : list event) :
  echoes (Create h :: reachability_event h v c b :: r) =
  (to_uchar (max_hops v), c, b) :: echoes r.
Proof. reflexivity. Qed.

Lemma creates_create_reach (h : HANDLE) (v : Vars) (c : N) (b : Z) (r : list event) :
  creates (Create h :: reachability_event h v c b :: r) = h :: creates r.
Proof. reflexivity. Qed.

Lemma closes_create_reach (h : HANDLE) (v : Vars) (c : N) (b : Z) (r : list event) :
  closes (Create h :: reachability_event h v c b :: r) = closes r.
Proof. reflexivity. Qed.

Lemma trace_of_silent (t0 txt1 txt2 : list event) (h : HANDLE) (v1 : Vars) (buf : Z) :
  only_text t0 -> only_text txt1 -> only_text txt2 ->
  let tr := (t0 ++ txt1 ++ Create h :: reachability_event h v1 0 buf
               :: txt2 ++ [Close h])%list in
  echoes tr = [(to_uchar (max_hops v1), 0%N, buf)] /\
  creates tr = [h] /\ closes tr = [h].
Proof.
  intros O0 O1 O2 tr; unfold tr; repeat split.
  - rewrite !echoes_text, echoes_create_reach, echoes_text by assumption.
    reflexivity.
  - rewrite !creates_text, creates_create_reach, creates_text by assumption.
    reflexivity.
  - rewrite !closes_text, closes_create_reach, closes_text by assumption.
    reflexivity.
Qed.

Lemma trace_of_answered (t0 txt1 txt2 ext : list event) (h : HANDLE) (v1 v : Vars)
  (count : N) (buf : Z) :
  only_text t0 -> only_text txt1 -> only_text txt2 ->
  creates ext = [] -> closes ext = [] ->
  let tr := (t0 ++ txt1 ++ Create h :: reachability_event h v1 count buf
               :: txt2 ++ ext ++ report v ++ [Close h])%list in
  echoes tr = (to_uchar (max_hops v1), count, buf) :: echoes ext /\
  creates tr = [h] /\ closes tr = [h].
Proof.
  intros O0 O1 O2 C L tr; unfold tr.
  pose proof (only_text_report v) as OR.
  repeat split.
  - rewrite !echoes_text, echoes_create_reach, echoes_text, echoes_app,
      echoes_text by assumption.
    cbn [echoes]; rewrite app_nil_r; reflexivity.
  - rewrite !creates_text, creates_create_reach, creates_text, creates_app, C,
      creates_text by assumption.
    reflexivity.
  - rewrite !closes_text, closes_create_reach, closes_text, closes_app, L,
      closes_text by assumption.
    reflexivity.
Qed.

Lemma parsed_fresh (argv : list string) (v1 : Vars) :
  parsed argv = Done v1 -> fresh_flags v1.
Proof. apply parse_args_fresh. Qed.


Lemma bind_OutOfRange {A B : Type} (m : outcome A) (k : A -> outcome B) (i : nat) :
  bind m k = OutOfRange i ->
  m = OutOfRange i \/ exists x, m = Done x /\ k x = OutOfRange i.
Proof.
  destruct m as [x| |]; simpl; intro H; try discriminate.
  - right; exists x; auto.
  - left; inversion H; reflexivity.
Qed.

Ltac out_of_range :=
  repeat match goal with
         | H : bind _ _ = OutOfRange _ |- _ =>
             apply bind_OutOfRange in H; destruct H as [H | (? & ? & H)]
         | H : arg _ _ = OutOfRange _ |- _ =>
             apply arg_OutOfRange in H; lia
         | H : Done _ = OutOfRange _ |- _ => discriminate H
         | H : (if ?c then _ else _) = OutOfRange _ |- _ => destruct c
         | H : (let '(_, _) := ?p in _) = OutOfRange _ |- _ => destruct p
         end.

(** An out-of-range outcome of the parser is an access beyond the end of
    [args]. *)
Lemma parse_arg_out_of_range (args : list string) (a i : nat) (v : Vars) :
  parse_arg args a v = OutOfRange i -> (List.length args <= i)%nat.
Proof.
  unfold parse_arg, parse_d, parse_gw, parse_ttl, parse_timeout.
  intro H; out_of_range.
Qed.

Lemma parse_loop_out_of_range (fuel : nat) (args : list string) (a i : nat) (v : Vars) :
  parse_loop fuel args a v = OutOfRange i -> (List.length args <= i)%nat.
Proof.
  revert a v; induction fuel as [|fuel IH]; intros a v; simpl;
    destruct (a <? List.length args)%nat; try discriminate.
  destruct (parse_arg args a v) as [[a' v']| |] eqn:E; simpl; try discriminate.
  - apply IH.
  - intro H; inversion H; subst. eapply parse_arg_out_of_range; eassumption.
Qed.



(** ** Exit codes *)

Ltac same_parse :=
  match goal with
  | P : parsed ?a = Done ?x, Q : parsed ?a = Done ?y |- _ =>
      assert (y = x) by congruence; subst y; clear Q
  | P : parsed ?a = Done _, Q : parsed ?a = OutOfRange _ |- _ =>
      rewrite P in Q; discriminate Q
  end.

Ltac use_calls :=
  repeat match goal with
         | C : IcmpCreateFile ?w = _ |- _ =>
             progress (try rewrite C in *; simpl fst in *; simpl snd in *)
         | R : reachability_probe ?h ?v ?w = _ |- _ =>
             progress (try rewrite R in *; simpl fst in *; simpl snd in *)
         end.

(** The executions of [main]: either [main] evaluates an element of
    [args] beyond its end while parsing, or it returns, and then its exit
    code is the one the table [exits] gives, and with exit code 0 the
    report has been written just before the handle is closed. *)
Lemma exit_code_table (argv : list string) (w : World) :
  match main argv w with
  | Done (code, v, w') =>
      (forall c, exits argv w c <-> c = code) /\
      (code = 0 -> exists before h, trace v = (before ++ report v ++ [Close h])%list)
  | OutOfRange i => (2 <= List.length argv)%nat /\ parsed argv = OutOfRange i
  | OutOfFuel => False
  end.
Proof.
  destruct (main_run argv w).
  - split; [|discriminate].
    intro c; split; intro X.
    + inversion X; subst; try reflexivity; lia.
    + subst; apply exit_no_arguments; assumption.
  - split; assumption.
  - split; [|discriminate].
    intro c; split; intro X.
    + inversion X; subst; try reflexivity; try lia; same_parse; contradiction.
    + subst; eapply exit_no_destination; eassumption.
  - split; [|discriminate].
    intro c; split; intro X.
    + inversion X; subst; try reflexivity; try lia; same_parse; use_calls;
        contradiction.
    + subst; eapply exit_no_icmp; try eassumption. use_calls; reflexivity.
  - split; [|discriminate].
    intro c; split; intro X.
    + inversion X; subst; try reflexivity; try lia; same_parse; use_calls;
        contradiction.
    + subst; eapply exit_no_reply; try eassumption; use_calls;
        [assumption | reflexivity].
  - split.
    + intro c; split; intro X.
      * inversion X; subst; try reflexivity; try lia; same_parse; use_calls;
          contradiction.
      * subst; eapply exit_report; try eassumption; use_calls; assumption.
    + intros _.
      match goal with
      | T : trace v = _ |- _ => rewrite T
      end.
      eexists (trace v1 ++ txt1 ++ Create h :: reachability_event h v1 count buf
                 :: txt2 ++ ext)%list; exists h.
      rewrite <- !app_assoc; simpl; rewrite <- !app_assoc; reflexivity.
Qed.

Ltac read_trace :=
  repeat match goal with
         | O : only_text _ |- _ => destruct O as (? & ? & ?)
         end;
  unfold reachability_event;
  repeat (rewrite ?echoes_app, ?creates_app, ?closes_app;
          cbn [echoes creates closes]);
  repeat match goal with
         | H : echoes _ = [] |- _ => rewrite H
         | H : creates _ = [] |- _ => rewrite H
         | H : closes _ = [] |- _ => rewrite H
         end;
  cbn [app].

Lemma main_observed (argv : list string) (w w' : World) (code : Z) (v : Vars) :
  main argv w = Done (code, v, w') -> observed argv code v.
Proof.
  intro M. pose proof (main_run argv w) as R. rewrite M in R.
  inversion R; subst; clear R.
  - apply observed_1; assumption.
  - match goal with P : parsed argv = Done _ |- _ =>
      pose proof (parsed_fresh _ _ P) as (_ & _ & O) end.
    match goal with T : trace v = _ |- _ =>
      eapply observed_2; try eassumption; rewrite T end;
      read_trace; reflexivity.
  - match goal with P : parsed argv = Done _ |- _ =>
      pose proof (parsed_fresh _ _ P) as (_ & _ & O) end.
    match goal with T : trace v = _ |- _ =>
      eapply observed_3; try eassumption; rewrite T end;
      read_trace; reflexivity.
  - match goal with P : parsed argv = Done _ |- _ =>
      pose proof (parsed_fresh _ _ P) as (_ & _ & O) end.
    match goal with
    | T : trace v = _, O1 : only_text txt1, O2 : only_text txt2 |- _ =>
        destruct (trace_of_silent (trace v1) txt1 txt2 h v1 buf O O1 O2) as (E & C & L);
        rewrite <- T in E, C, L;
        eapply observed_4 with (h := h)
          (before := (trace v1 ++ txt1 ++ Create h :: reachability_event h v1 0 buf
                        :: txt2)%list);
        try eassumption; rewrite T
    end.
    rewrite <- !app_assoc; cbn [app]; reflexivity.
  - match goal with P : parsed argv = Done _ |- _ =>
      pose proof (parsed_fresh _ _ P) as (_ & _ & O) end.
    match goal with
    | T : trace v = _, O1 : only_text txt1, O2 : only_text txt2,
      C : creates ext = [], L : closes ext = [] |- _ =>
        destruct (trace_of_answered (trace v1) txt1 txt2 ext h v1 v count buf
                                    O O1 O2 C L) as (E' & C' & L');
        rewrite <- T in E', C', L';
        eapply observed_0 with (h := h) (ps := echoes ext)
          (before := (trace v1 ++ txt1 ++ Create h :: reachability_event h v1 count buf
                        :: txt2 ++ ext)%list);
        try eassumption
    end.
    + match goal with T : trace v = _ |- _ => rewrite T at 1 end.
      rewrite <- !app_assoc; cbn [app]; rewrite <- !app_assoc; reflexivity.
    + intro G. match goal with X : gateways v1 = [] -> ext = [] |- _ =>
        rewrite (X G); reflexivity end.
Qed.

(** ** Facts about the gateways and the TTL field *)

Lemma Forall2_in_right {A B : Type} (R : A -> B -> Prop) (l : list A) (l' : list B) (y : B) :
  Forall2 R l l' -> In y l' -> exists x, In x l /\ R x y.
Proof.
  induction 1 as [|a b l l' Hab _ IH]; simpl; [tauto|].
  intros [<-|Hy].
  - exists a; auto.
  - destruct (IH Hy) as (x & Hx & Rx); exists x; auto.
Qed.

Lemma Forall2_nil_iff {A B : Type} (R : A -> B -> Prop) (l : list A) (l' : list B) :
  Forall2 R l l' -> (l = [] <-> l' = []).
Proof. destruct 1; split; intro; (reflexivity || discriminate). Qed.

Lemma to_uchar_small (z : Z) : 0 <= z < 256 -> to_uchar z = z.
Proof. intro H; unfold to_uchar; apply Z.mod_small; exact H. Qed.

Lemma map_to_uchar_zrange (i : Z) (n : nat) :
  0 <= i -> i + Z.of_nat n <= 256 -> map to_uchar (zrange i n) = zrange i n.
Proof.
  revert i; induction n as [|n IH]; intros i Hi Hn; simpl; [reflexivity|].
  rewrite to_uchar_small by lia. f_equal; apply IH; lia.
Qed.

(** The flags of the gateways at the [return] of a run that swept:
    raised exactly for the addresses some probe of the sweep was answered
    from. *)
Lemma swept_gateways (v1 v : Vars) (ps : list probe) :
  fresh_flags v1 ->
  gateways v = fold_left apply_reply ps (gateways v1) ->
  forall g, In g (gateways v) ->
    replied g = existsb (answered_by (ip g)) ps.
Proof.
  intros (_ & F & _) G g Hg.
  rewrite G in Hg.
  destruct (Forall2_in_right _ _ _ _ (fold_apply_reply_marked ps (gateways v1)) Hg)
    as (g0 & H0 & _ & Hi & Hr).
  rewrite Forall_forall in F. rewrite Hr, (F g0 H0), Hi; reflexivity.
Qed.

Lemma answered_by_true (a : Z) (p : probe) :
  answered_by a p = true <-> (0 < probe_count p)%N /\ probe_addr p = a.
Proof.
  unfold answered_by. rewrite andb_true_iff, N.ltb_lt, Z.eqb_eq. tauto.
Qed.

(** ** Properties of every execution *)


(** C5.  On every execution that returns, whatever the gateways: if the
    first probe, the reachability probe, got no reply (reply count 0),
    then no probe of the sweep was sent, every gateway's flag is still
    false at the return, and the exit code is 4. *)
Theorem unreachable_destination (argv : list string) (w w' : World)
  (code : Z) (v : Vars) :
  main argv w = Done (code, v, w') ->
  (exists p rest, echoes (trace v) = p :: rest /\ probe_count p = 0%N) ->
  code = 4 /\
  sweep_echoes (trace v) = [] /\
  Forall (fun g => replied g = false) (gateways v).
Proof.
  intros M (p & rest & E & Z0); apply main_observed in M.
  inversion M; subst; clear M;
    try (match goal with
         | X : echoes (trace _) = [] |- _ => rewrite X in E; discriminate E
         | X : echoes (trace _) = [_] |- _ => rewrite X in E
         | X : echoes (trace _) = (_, _, _) :: _ |- _ => rewrite X in E
         end).
  - simpl in E; discriminate E.
  - split; [reflexivity|]. split.
    + unfold sweep_echoes.
      match goal with X : echoes (trace v) = _ |- _ => rewrite X end.
      reflexivity.
    + match goal with
      | P : parsed argv = Done _, G : gateways v = _ |- _ =>
          rewrite G; apply (parsed_fresh _ _ P)
      end.
  - inversion E; subst. unfold probe_count in Z0; simpl in Z0. contradiction.
Qed.

(** C3 (amended).  On every execution that returns and whose first probe,
    the reachability probe, got a reply: the exit code is 0, the
    destination's flag is true, and a gateway's flag is true at the return
    exactly when some probe of the sweep (a probe after the first) got a
    reply from the gateway's address.  The reply to the reachability probe
    itself is not matched against the gateways. *)
Theorem sweep_replies_mark_gateways (argv : list string) (w w' : World)
  (code : Z) (v : Vars) :
  main argv w = Done (code, v, w') ->
  (exists p rest, echoes (trace v) = p :: rest /\ probe_count p <> 0%N) ->
  code = 0 /\
  replied (destination v) = true /\
  forall g, In g (gateways v) ->
    (replied g = true <->
     exists p, In p (sweep_echoes (trace v)) /\
               (0 < probe_count p)%N /\ probe_addr p = ip g).
Proof.
  intros M (p & rest & E & NZ); apply main_observed in M.
  inversion M; subst; clear M;
    try (match goal with
         | X : echoes (trace _) = [] |- _ => rewrite X in E; discriminate E
         | X : echoes (trace _) = [_] |- _ => rewrite X in E
         | X : echoes (trace _) = (_, _, _) :: _ |- _ => rewrite X in E
         end).
  - simpl in E; discriminate E.
  - inversion E; subst. unfold probe_count in NZ; simpl in NZ. contradiction.
  - split; [reflexivity|]. split.
    + match goal with D : destination v = _ |- _ => rewrite D end. reflexivity.
    + intros g Hg. unfold sweep_echoes.
      match goal with X : echoes (trace v) = _ |- _ => rewrite X end.
      cbn [tl].
      match goal with
      | P : parsed argv = Done _, G : gateways v = fold_left _ _ _ |- _ =>
          rewrite (swept_gateways _ _ _ (parsed_fresh _ _ P) G g Hg)
      end.
      rewrite existsb_exists.
      split; intros (q & Hq & A); exists q; (split; [exact Hq|]);
        apply answered_by_true; exact A.
Qed.

(** The TTL fields of the probes of the sweep, for any [max_hops]: the
    loop indices 1 to [max_hops - 1], each reduced to 8 bits. *)
Lemma sweep_ttl_fields (argv : list string) (w w' : World) (v : Vars) :
  main argv w = Done (0, v, w') -> gateways v <> [] ->
  map probe_ttl (sweep_echoes (trace v)) =
  map to_uchar (ttls_below (max_hops v)).
Proof.
  intros M G; apply main_observed in M.
  inversion M; subst; clear M.
  unfold sweep_echoes.
  match goal with X : echoes (trace v) = _ |- _ => rewrite X end.
  cbn [tl].
  match goal with X : max_hops v = _ |- _ => rewrite X end.
  match goal with X : gateways v1 <> [] -> _ |- _ => apply X end.
  intro E.
  match goal with X : gateways v = fold_left _ _ _ |- _ => rewrite X, E in G end.
  apply G.
  apply (Forall2_nil_iff _ _ _ (fold_apply_reply_marked ps [])). reflexivity.
Qed.

(** C6 (amended).  On every execution that enters the hop sweep (the
    reachability probe was answered, so the exit code is 0, and there is a
    gateway) with [max_hops] at most 256: the probes of the sweep carry
    the TTL values 1 through [max_hops - 1] in increasing order, none of
    them outside that range, and with [max_hops = 1] no probe of the sweep
    is sent. *)
Theorem sweep_ttl_sequence (argv : list string) (w w' : World) (v : Vars) :
  main argv w = Done (0, v, w') -> gateways v <> [] -> max_hops v <= 256 ->
  map probe_ttl (sweep_echoes (trace v)) = ttls_below (max_hops v) /\
  StronglySorted Z.lt (map probe_ttl (sweep_echoes (trace v))) /\
  Forall (fun t => 1 <= t <= max_hops v - 1)
         (map probe_ttl (sweep_echoes (trace v))) /\
  (max_hops v = 1 -> sweep_echoes (trace v) = []).
Proof.
  intros M G B.
  assert (E : map probe_ttl (sweep_echoes (trace v)) = ttls_below (max_hops v)).
  { rewrite (sweep_ttl_fields argv w w' v M G).
    unfold ttls_below; apply map_to_uchar_zrange; lia. }
  split; [exact E|]. rewrite E. unfold ttls_below.
  split; [apply zrange_sorted|]. split.
  - apply Forall_forall; intros t Ht. apply in_zrange in Ht. lia.
  - intro One. rewrite One in E. simpl in E.
    destruct (sweep_echoes (trace v)); [reflexivity | discriminate E].
Qed.



End Properties.

(** ** Witnesses and counterexamples on the simulated platform *)


(** Witness of C5: the same command line when the destination is down. *)
Lemma unreachable_destination_witness :
  main (W := dead_end) argv_two_gateways 0%nat = Done (4, run_dead_end, 0%nat) /\
  (exists p rest, echoes (trace run_dead_end) = p :: rest /\ probe_count p = 0%N) /\
  4 = 4 /\
  sweep_echoes (trace run_dead_end) = [] /\
  Forall (fun g => replied g = false) (gateways run_dead_end).
Proof.
  assert (M : main (W := dead_end) argv_two_gateways 0%nat
              = Done (4, run_dead_end, 0%nat)) by (vm_compute; reflexivity).
  assert (E : exists p rest,
             echoes (trace run_dead_end) = p :: rest /\ probe_count p = 0%N).
  { exists (30, 0%N, 0), []; split; vm_compute; reflexivity. }
  split; [exact M|]. split; [exact E|].
  exact (unreachable_destination (W := dead_end) _ _ _ _ _ M E).
Defined.

(** Counterexample to C3 as stated: on the silent route the reachability
    probe is answered by 10.0.0.9, the gateway 10.0.0.9 has that very
    address, no probe of the sweep is answered, and the gateway's flag is
    false at the return. *)
Lemma reachability_reply_is_not_matched :
  exists p rest g,
    main (W := silent_route) argv_gateway_is_destination 0%nat
      = Done (0, run_silent_route, 0%nat) /\
    echoes (trace run_silent_route) = p :: rest /\
    (0 < probe_count p)%N /\
    replied (destination run_silent_route) = true /\
    gateways run_silent_route = [g] /\
    ip g = probe_addr p /\
    replied g = false.
Proof.
  exists (30, 1%N, 150994954), (tl (echoes (trace run_silent_route))),
         (mkNode "10.0.0.9" 150994954 false).
  vm_compute. repeat split; reflexivity.
Qed.

(** Witness of C3 (amended): the run with two gateways. *)
Lemma sweep_replies_mark_gateways_witness :
  main (W := three_hops) argv_two_gateways 0%nat
    = Done (0, run_two_gateways, 0%nat) /\
  (exists p rest, echoes (trace run_two_gateways) = p :: rest /\ probe_count p <> 0%N) /\
  0 = 0 /\
  replied (destination run_two_gateways) = true /\
  forall g, In g (gateways run_two_gateways) ->
    (replied g = true <->
     exists p, In p (sweep_echoes (trace run_two_gateways)) /\
               (0 < probe_count p)%N /\ probe_addr p = ip g).
Proof.
  assert (M : main (W := three_hops) argv_two_gateways 0%nat
              = Done (0, run_two_gateways, 0%nat)) by (vm_compute; reflexivity).
  assert (E : exists p rest,
             echoes (trace run_two_gateways) = p :: rest /\ probe_count p <> 0%N).
  { exists (30, 1%N, 150994954), (tl (echoes (trace run_two_gateways))).
    split; [vm_compute; reflexivity | vm_compute; discriminate]. }
  split; [exact M|]. split; [exact E|].
  exact (sweep_replies_mark_gateways (W := three_hops) _ _ _ _ _ M E).
Defined.

(** Counterexample to C6 as stated: with [max_hops = 258] the sweep is
    entered, and after the probe with TTL 255 comes a probe with TTL 0,
    which is neither in increasing order nor within 1 .. 257. *)
Lemma ttl_wraps_after_255 :
  main (W := three_hops) argv_258_hops 0%nat = Done (0, run_258_hops, 0%nat) /\
  gateways run_258_hops <> [] /\
  max_hops run_258_hops = 258 /\
  nth_error (map probe_ttl (sweep_echoes (trace run_258_hops))) 254 = Some 255 /\
  nth_error (map probe_ttl (sweep_echoes (trace run_258_hops))) 255 = Some 0 /\
  map probe_ttl (sweep_echoes (trace run_258_hops)) <> ttls_below 258.
Proof.
  split; [vm_compute; reflexivity|].
  split; [vm_compute; discriminate|].
  split; [vm_compute; reflexivity|].
  split; [vm_compute; reflexivity|].
  split; [vm_compute; reflexivity|].
  vm_compute; discriminate.
Qed.

(** Witness of C6 (amended): the run with two gateways and the default
    [max_hops = 30]. *)
Lemma sweep_ttl_sequence_witness :
  main (W := three_hops) argv_two_gateways 0%nat
    = Done (0, run_two_gateways, 0%nat) /\
  gateways run_two_gateways <> [] /\
  max_hops run_two_gateways <= 256 /\
  map probe_ttl (sweep_echoes (trace run_two_gateways))
    = ttls_below (max_hops run_two_gateways) /\
  StronglySorted Z.lt (map probe_ttl (sweep_echoes (trace run_two_gateways))) /\
  Forall (fun t => 1 <= t <= max_hops run_two_gateways - 1)
         (map probe_ttl (sweep_echoes (trace run_two_gateways))) /\
  (max_hops run_two_gateways = 1 -> sweep_echoes (trace run_two_gateways) = []).
Proof.
  assert (M : main (W := three_hops) argv_two_gateways 0%nat
              = Done (0, run_two_gateways, 0%nat)) by (vm_compute; reflexivity).
  assert (G : gateways run_two_gateways <> []) by (vm_compute; discriminate).
  assert (B : max_hops run_two_gateways <= 256) by (vm_compute; discriminate).
  split; [exact M|]. split; [exact G|]. split; [exact B|].
  exact (sweep_ttl_sequence (W := three_hops) _ _ _ _ M G B).
Defined.

(** ** Where the parser departs from the documented command line *)

(** C1.  [-ttl] and [-timeout] do not take the token that follows them:
    in [main]'s loop the index is advanced before [atoi] reads
    [args[a + 1]], so the value comes from the token two places after the
    flag.  On any platform, [-ttl 5 7] sets [max_hops] to 7 and
    [-timeout 500 9] sets [timeout] to 9; with the value as the last token
    ([-ttl 5], [-timeout 500]) the parser reads [args[2]] of a vector of
    two; in general a [-ttl] or [-timeout] at index [a] that the parser gets
    past has set the variable to [atoi (args[a + 2])].  Without the flags
    the defaults 30 and 10000 stand. *)
Theorem value_of_ttl_and_timeout_is_read_one_token_late :
  forall W : Win32,
    (exists v, parse_args ["-ttl"; "5"; "7"] initial_vars = Done v /\
               max_hops v = 7 /\ atoi "5" = 5) /\
    (exists v, parse_args ["-timeout"; "500"; "9"] initial_vars = Done v /\
               timeout v = 9 /\ atoi "500" = 500) /\
    parse_args ["-ttl"; "5"] initial_vars = OutOfRange 2 /\
    parse_args ["-timeout"; "500"] initial_vars = OutOfRange 2 /\
    (forall args a v a' v',
       parse_ttl args a v = Done (a', v') ->
       exists val, nth_error args (a + 2) = Some val /\ max_hops v' = atoi val) /\
    (forall args a v a' v',
       parse_timeout args a v = Done (a', v') ->
       exists val, nth_error args (a + 2) = Some val /\ timeout v' = atoi val) /\
    (exists v, parse_args [] initial_vars = Done v /\
               max_hops v = 30 /\ timeout v = 10000) /\
    max_hops (final_vars (main (W := three_hops) argv_ttl_5_then_7 0%nat)) = 7.
Proof.
  intro W.
  split; [eexists; split; [reflexivity | split; reflexivity]|].
  split; [eexists; split; [reflexivity | split; reflexivity]|].
  split; [reflexivity|].
  split; [reflexivity|].
  split.
  { intros args a v a' v' H. apply parse_ttl_reads in H.
    destruct H as (_ & val & Hn & Hm & _). exists val; auto. }
  split.
  { intros args a v a' v' H. apply parse_timeout_reads in H.
    destruct H as (_ & val & Hn & Ht & _). exists val; auto. }
  split; [eexists; split; [reflexivity | split; reflexivity]|].
  vm_compute; reflexivity.
Qed.

(** C2.  A [-gw] whose argument is not a valid address is appended all
    the same: [gateways.push_back(node)] follows the test of [InetPtonA] on
    both of its sides.  On any platform every [-gw] the parser gets past
    adds exactly one entry, with an empty name when [InetPtonA] did not
    return 1; on the simulated platform [-gw bogus] ends with one gateway
    of empty name and the report has the line [Gateway::no reply]. *)
Theorem invalid_gateway_is_appended :
  (forall (W : Win32) args a v v',
     parse_gw args a v = Done v' ->
     exists nxt node,
       nth_error args (a + 1) = Some nxt /\
       gateways v' = (gateways v ++ [node])%list /\
       (fst (InetPtonA nxt 0) <> 1 -> hostname node = "")) /\
  ipv4_literal "bogus" = None /\
  main (W := three_hops) argv_bad_gateway 0%nat = Done (0, run_bad_gateway, 0%nat) /\
  gateways run_bad_gateway = [mkNode "" 0 false] /\
  In (Out ("Gateway::no reply" ++ endl)) (trace run_bad_gateway).
Proof.
  split.
  { intros W args a v v' H. apply parse_gw_appends in H.
    destruct H as (nxt & node & Hn & Hg & _ & _ & Hh & _).
    exists nxt, node. split; [exact Hn|]. split; [exact Hg|].
    intro NE. apply Z.eqb_neq in NE. rewrite NE in Hh. exact Hh. }
  split; [reflexivity|].
  split; [vm_compute; reflexivity|].
  split; [vm_compute; reflexivity|].
  vm_compute. intuition.
Qed.

(** C10.  A value-taking flag as the last token makes the parser read
    beyond the end of [args]: on any platform, [-d] and [-gw] alone read
    [args[1]] of a vector of one, [-ttl] and [-timeout] alone read
    [args[2]] of a vector of one, [-v -ttl] reads [args[2]] of a vector of
    two for its message, and [routecheck -d] as a whole run ends in that
    access.  An [OutOfRange i] outcome of the parser always is such an
    access: [i] is not below the length of [args]. *)
Theorem value_flag_as_last_token_reads_out_of_bounds :
  forall (W : Win32) (w : World),
    parse_args ["-d"] initial_vars = OutOfRange 1 /\
    parse_args ["-gw"] initial_vars = OutOfRange 1 /\
    parse_args ["-ttl"] initial_vars = OutOfRange 2 /\
    parse_args ["-timeout"] initial_vars = OutOfRange 2 /\
    parse_args ["-v"; "-ttl"] initial_vars = OutOfRange 2 /\
    main ["routecheck"; "-d"] w = OutOfRange 1 /\
    (forall args v i,
       parse_args args v = OutOfRange i -> (List.length args <= i)%nat).
Proof.
  intros W w.
  repeat (split; [reflexivity|]).
  intros args v i H. unfold parse_args in H.
  eapply parse_loop_out_of_range; exact H.
Qed.

(** ** More about argument parsing *)

Section MoreProperties.

Context {W : Win32}.

Lemma stdout_app (a b : list event) : stdout (a ++ b) = (stdout a ++ stdout b)%list.
Proof.
  induction a as [|e a IH]; simpl; [reflexivity|].
  destruct e; simpl; rewrite IH; reflexivity.
Qed.

Lemma echo_calls_app (a b : list event) :
  echo_calls (a ++ b) = (echo_calls a ++ echo_calls b)%list.
Proof.
  induction a as [|e a IH]; simpl; [reflexivity|].
  destruct e; simpl; rewrite IH; reflexivity.
Qed.

(** A list of events with no [Echo] has no call of [IcmpSendEcho]. *)
Lemma echo_calls_no_echo (tr : list event) : echoes tr = [] -> echo_calls tr = [].
Proof.
  induction tr as [|e tr IH]; simpl; [reflexivity|].
  destruct e; simpl; auto; discriminate.
Qed.

(** The branch [-d]. *)
Lemma parse_d_spec (args : list string) (a : nat) (v v' : Vars) :
  parse_d args a v = Done v' ->
  exists nxt,
    nth_error args (a + 1) = Some nxt /\
    gateways v' = gateways v /\ max_hops v' = max_hops v /\
    timeout v' = timeout v /\ verbose v' = verbose v /\
    ip (destination v') = snd (InetPtonA nxt (ip (destination v))) /\
    hostname (destination v') =
      (if fst (InetPtonA nxt (ip (destination v))) =? 1 then nxt
       else hostname (destination v)) /\
    (verbose v = false -> trace v' = trace v).
Proof.
  unfold parse_d; intros H; inv_bind.
  apply arg_Done in E. exists x. split; [exact E|].
  unfold print_if_verbose, printHelp, print in H.
  destruct (verbose v) eqn:V; simpl in H;
    destruct (InetPtonA x (ip (destination v))) as [rc buf] eqn:P; simpl in H;
    destruct (rc =? 1) eqn:R; simpl in H; rewrite ?V in H; simpl in H;
    inversion H; subst; clear H; simpl; rewrite ?R;
    repeat split; try reflexivity; try assumption; intro X; discriminate X.
Qed.

(** The branch [-gw] writes nothing unless verbose. *)
Lemma parse_gw_quiet (args : list string) (a : nat) (v v' : Vars) :
  parse_gw args a v = Done v' -> verbose v = false -> trace v' = trace v.
Proof.
  unfold parse_gw; intros H V; inv_bind.
  unfold print_if_verbose, printHelp, print in H. rewrite V in H. simpl in H.
  destruct (InetPtonA x 0) as [rc buf]; simpl in H.
  destruct (negb (rc =? 1)); simpl in H; rewrite ?V in H;
    inversion H; subst; reflexivity.
Qed.

(** The branches [-ttl] and [-timeout] write nothing unless verbose. *)
Lemma parse_ttl_quiet (args : list string) (a a' : nat) (v v' : Vars) :
  parse_ttl args a v = Done (a', v') -> verbose v = false -> trace v' = trace v.
Proof.
  unfold parse_ttl; intros H V; rewrite V in H; simpl in H; inv_bind. reflexivity.
Qed.

Lemma parse_timeout_quiet (args : list string) (a a' : nat) (v v' : Vars) :
  parse_timeout args a v = Done (a', v') -> verbose v = false -> trace v' = trace v.
Proof.
  unfold parse_timeout; intros H V; rewrite V in H; simpl in H; inv_bind. reflexivity.
Qed.

(** The body of the parsing loop, branch by branch. *)
Lemma parse_arg_cases (args : list string) (a a' : nat) (v v' : Vars) :
  parse_arg args a v = Done (a', v') ->
  exists tok, nth_error args a = Some tok /\
    ((tok = "-v" /\ a' = a /\ v' = set_verbose true v) \/
     (tok = "-help" /\ a' = a /\ v' = printHelp v) \/
     (tok = "-d" /\ a' = S a /\ parse_d args a v = Done v') \/
     (tok = "-gw" /\ a' = S a /\ parse_gw args a v = Done v') \/
     (tok = "-ttl" /\ parse_ttl args a v = Done (a', v')) \/
     (tok = "-timeout" /\ parse_timeout args a v = Done (a', v')) \/
     (tok <> "-v" /\ tok <> "-help" /\ tok <> "-d" /\ tok <> "-gw" /\
      tok <> "-ttl" /\ tok <> "-timeout" /\ a' = a /\ v' = v)).
Proof.
  unfold parse_arg; intros H; inv_bind.
  apply arg_Done in E. exists x; split; [exact E|].
  destruct (String.eqb_spec x "-v"); inv_bind; [auto|].
  destruct (String.eqb_spec x "-help"); inv_bind; [auto|].
  destruct (String.eqb_spec x "-d"); inv_bind; [auto 10|].
  destruct (String.eqb_spec x "-gw"); inv_bind; [auto 10|].
  destruct (String.eqb_spec x "-ttl"); [auto 10|].
  destruct (String.eqb_spec x "-timeout"); [auto 10|].
  inv_bind. do 6 right. repeat split; assumption.
Qed.

(** A property kept by every iteration of the parsing loop holds when the
    loop ends.  The property may depend on the index the loop is at. *)
Lemma parse_loop_invariant (I : nat -> Vars -> Prop) (args : list string) :
  (forall a v a' v',
     (a < List.length args)%nat -> parse_arg args a v = Done (a', v') ->
     I a v -> I (S a') v') ->
  forall fuel a v v',
    parse_loop fuel args a v = Done v' -> I a v -> exists a', I a' v'.
Proof.
  intros Step; induction fuel as [|fuel IH]; intros a v v' H Ia; simpl in H;
    destruct (a <? List.length args)%nat eqn:L; try discriminate;
    inv_bind; eauto.
  destruct x as [a1 v1]. apply Nat.ltb_lt in L.
  eapply IH; [exact H|]. eapply Step; eassumption.
Qed.

Lemma in_args_of_nth (args : list string) (a : nat) (tok : string) :
  nth_error args a = Some tok -> In tok args.
Proof. apply nth_error_In. Qed.

(** [verbose] after parsing: set exactly when some token is ["-v"]. *)
Lemma parse_args_verbose (args : list string) (v1 : Vars) :
  parse_args args initial_vars = Done v1 ->
  verbose v1 = existsb (fun y => (y =? "-v")%string) args.
Proof.
  unfold parse_args; intro H.
  assert (Step : forall a v a' v',
             (a < List.length args)%nat -> parse_arg args a v = Done (a', v') ->
             verbose v = existsb (fun y => (y =? "-v")%string) args ->
             verbose v' = existsb (fun y => (y =? "-v")%string) args).
  { intros a v a' v' _ P I. apply parse_arg_cases in P.
    destruct P as (tok & Hn & [C|[C|[C|[C|[C|[C|C]]]]]]).
    - destruct C as (-> & _ & ->). simpl. symmetry. apply existsb_exists.
      exists "-v"; split; [eapply in_args_of_nth; exact Hn | reflexivity].
    - destruct C as (_ & _ & ->). exact I.
    - destruct C as (_ & _ & P). apply parse_d_spec in P.
      destruct P as (nxt & _ & _ & _ & _ & V & _). congruence.
    - destruct C as (_ & _ & P). apply parse_gw_appends in P.
      destruct P as (nxt & node & _ & _ & _ & _ & _ & _ & _ & _ & V & _). congruence.
    - destruct C as (_ & P). apply parse_ttl_reads in P.
      destruct P as (_ & val & _ & _ & _ & _ & _ & V & _). congruence.
    - destruct C as (_ & P). apply parse_timeout_reads in P.
      destruct P as (_ & val & _ & _ & _ & _ & _ & V & _). congruence.
    - destruct C as (_ & _ & _ & _ & _ & _ & _ & ->). exact I. }
  destruct (parse_loop_invariant
              (fun _ v => verbose v = existsb (fun y => (y =? "-v")%string) args)
              args Step _ _ _ _ H) as (_ & E); [|exact E].
  destruct (existsb _ args); reflexivity.
Qed.

(** X1.  After parsing, [verbose] is true exactly when one of the tokens of
    [args] is ["-v"], wherever it stands, even in the place of another
    flag's value. *)
Theorem verbose_exactly_when_v_is_given (args : list string) (v1 : Vars) :
  parse_args args initial_vars = Done v1 ->
  (verbose v1 = true <-> In "-v" args).
Proof.
  intro H. rewrite (parse_args_verbose args v1 H), existsb_exists.
  split.
  - intros (x & Hx & E). apply String.eqb_eq in E. subst x. exact Hx.
  - intro Hin. exists "-v"; split; [exact Hin | reflexivity].
Qed.

Lemma parse_args_origin (args : list string) (v1 : Vars) :
  parse_args args initial_vars = Done v1 -> parse_origin args v1.
Proof.
  unfold parse_args; intro H.
  assert (Step : forall a v a' v',
             (a < List.length args)%nat -> parse_arg args a v = Done (a', v') ->
             parse_origin args v -> parse_origin args v').
  { intros a v a' v' _ P (M & T & D & N). apply parse_arg_cases in P.
    destruct P as (tok & Hn & [C|[C|[C|[C|[C|[C|C]]]]]]).
    - destruct C as (_ & _ & ->). repeat split; assumption.
    - destruct C as (_ & _ & ->). repeat split; assumption.
    - destruct C as (-> & _ & P). apply parse_d_spec in P.
      destruct P as (nxt & Hx & _ & Hm & Ht & _ & _ & Hh & _).
      unfold parse_origin. rewrite Hm, Ht.
      split; [exact M|]. split; [exact T|]. split; [right; eauto|].
      destruct (fst (InetPtonA nxt (ip (destination v))) =? 1) eqn:R.
      + right. exists a, (ip (destination v)). rewrite Hh.
        apply Z.eqb_eq in R. auto.
      + rewrite Hh. destruct N as [N|(a0 & buf & N)]; [left; exact N|].
        right; exists a0, buf; exact N.
    - destruct C as (_ & _ & P). apply parse_gw_appends in P.
      destruct P as (nxt & node & _ & _ & _ & _ & _ & Hd & Hm & Ht & _).
      unfold parse_origin. rewrite Hd, Hm, Ht. repeat split; assumption.
    - destruct C as (-> & P). apply parse_ttl_reads in P.
      destruct P as (_ & val & Hv & Hm & Ht & Hd & _).
      unfold parse_origin. rewrite Hd, Ht.
      split; [right; eauto|]. repeat split; assumption.
    - destruct C as (-> & P). apply parse_timeout_reads in P.
      destruct P as (_ & val & Hv & Ht & Hm & Hd & _).
      unfold parse_origin. rewrite Hd, Hm.
      split; [exact M|]. split; [right; eauto|]. split; assumption.
    - destruct C as (_ & _ & _ & _ & _ & _ & _ & ->). repeat split; assumption. }
  destruct (parse_loop_invariant (fun _ v => parse_origin args v)
              args Step _ _ _ _ H) as (_ & E); [|exact E].
  destruct (existsb _ args); repeat split; left; reflexivity.
Qed.

(** What one iteration of the parsing loop does to the index, to
    [max_hops], [timeout] and [gateways], by the token at the index. *)
Lemma parse_arg_effect (args : list string) (a a' : nat) (v v' : Vars) :
  parse_arg args a v = Done (a', v') ->
  exists tok,
    nth_error args a = Some tok /\
    S a' = (if takes_value tok then a + 2 else a + 1)%nat /\
    max_hops v' = (if (tok =? "-ttl")%string
                   then atoi (nth (a + 2) args "") else max_hops v) /\
    timeout v' = (if (tok =? "-timeout")%string
                  then atoi (nth (a + 2) args "") else timeout v) /\
    gateways v' = (gateways v ++ if (tok =? "-gw")%string
                                 then [gateway_at args a] else [])%list.
Proof.
  intro P. apply parse_arg_cases in P.
  destruct P as (tok & Hn & [C|[C|[C|[C|[C|[C|C]]]]]]); exists tok;
    (split; [exact Hn|]).
  - destruct C as (-> & -> & ->). simpl. rewrite app_nil_r.
    repeat split; lia.
  - destruct C as (-> & -> & ->). simpl. rewrite app_nil_r.
    repeat split; lia.
  - destruct C as (-> & -> & P). apply parse_d_spec in P.
    destruct P as (nxt & _ & Hg & Hm & Ht & _). simpl.
    rewrite Hg, Hm, Ht, app_nil_r. repeat split; lia.
  - destruct C as (-> & -> & P). apply parse_gw_appends in P.
    destruct P as (nxt & node & Hx & Hg & Hr & Hi & Hh & _ & Hm & Ht & _).
    simpl. rewrite Hg, Hm, Ht.
    split; [lia|]. split; [reflexivity|]. split; [reflexivity|].
    do 2 f_equal. unfold gateway_at.
    rewrite (nth_error_nth _ _ "" Hx).
    destruct node as [hn i r]; simpl in *. subst. reflexivity.
  - destruct C as (-> & P). apply parse_ttl_reads in P.
    destruct P as (-> & val & Hv & Hm & Ht & _ & Hg & _). simpl.
    rewrite Hg, Hm, Ht, app_nil_r, (nth_error_nth _ _ "" Hv).
    repeat split; lia.
  - destruct C as (-> & P). apply parse_timeout_reads in P.
    destruct P as (-> & val & Hv & Ht & Hm & _ & Hg & _). simpl.
    rewrite Hg, Hm, Ht, app_nil_r, (nth_error_nth _ _ "" Hv).
    repeat split; lia.
  - destruct C as (N1 & N2 & N3 & N4 & N5 & N6 & -> & ->).
    unfold takes_value.
    apply String.eqb_neq in N3, N4, N5, N6. rewrite N3, N4, N5, N6. simpl.
    rewrite app_nil_r. repeat split; lia.
Qed.

(** The parsing loop from index [a]: the indices it tests are
    [flag_indices], and [max_hops], [timeout] and [gateways] end as these
    indices make them. *)
Lemma parse_loop_effect (fuel : nat) (args : list string) (a : nat) (v v' : Vars) :
  parse_loop fuel args a v = Done v' ->
  max_hops v' = value_after args "-ttl" (flag_indices fuel args a) (max_hops v) /\
  timeout v' = value_after args "-timeout" (flag_indices fuel args a) (timeout v) /\
  gateways v' =
    (gateways v ++
     map (gateway_at args)
         (filter (fun p => (nth p args "" =? "-gw")%string)
                 (flag_indices fuel args a)))%list.
Proof.
  revert a v; induction fuel as [|fuel IH]; intros a v H; simpl in H;
    destruct (a <? List.length args)%nat eqn:L; try discriminate.
  - inversion H; subst. simpl. rewrite app_nil_r. auto.
  - inv_bind. destruct x as [a1 v1].
    apply parse_arg_effect in E.
    destruct E as (tok & Hn & Ha & Hm & Ht & Hg).
    apply IH in H. destruct H as (Hm' & Ht' & Hg').
    cbn [flag_indices]. rewrite Hn. rewrite <- Ha.
    unfold value_after in *. cbn [fold_left filter].
    rewrite (nth_error_nth _ _ "" Hn).
    rewrite Hm', Ht', Hg', Hm, Ht, Hg.
    split; [reflexivity|]. split; [reflexivity|].
    destruct (tok =? "-gw")%string; cbn [map];
      rewrite <- app_assoc; reflexivity.
  - inversion H; subst.
    apply Nat.ltb_ge in L. apply nth_error_None in L.
    destruct fuel; simpl; rewrite ?L, app_nil_r; auto.
Qed.

Lemma flag_indices_bounds (fuel : nat) (args : list string) (a : nat) :
  Forall (fun p => (a <= p < List.length args)%nat) (flag_indices fuel args a).
Proof.
  revert a; induction fuel as [|fuel IH]; intro a; simpl; [constructor|].
  destruct (nth_error args a) as [tok|] eqn:E; [|constructor].
  assert (a < List.length args)%nat by (apply nth_error_Some; congruence).
  constructor; [lia|].
  eapply Forall_impl; [|apply IH].
  simpl. intros p Hp. destruct (takes_value tok); lia.
Qed.

Lemma flag_indices_sorted (fuel : nat) (args : list string) (a : nat) :
  StronglySorted lt (flag_indices fuel args a).
Proof.
  revert a; induction fuel as [|fuel IH]; intro a; simpl; [constructor|].
  destruct (nth_error args a) as [tok|] eqn:E; [|constructor].
  constructor; [apply IH|].
  eapply Forall_impl; [|apply flag_indices_bounds].
  simpl. intros p Hp. destruct (takes_value tok); lia.
Qed.

Lemma value_after_unset (args : list string) (name : string) (idxs : list nat) (d : Z) :
  (forall p, In p idxs -> nth p args "" <> name) ->
  value_after args name idxs d = d.
Proof.
  unfold value_after. revert d; induction idxs as [|p idxs IH]; intros d N;
    cbn [fold_left]; [reflexivity|].
  destruct (String.eqb_spec (nth p args "") name) as [E|_].
  - exfalso. apply (N p); [left; reflexivity | exact E].
  - apply IH. intros q Hq. apply N. right; exact Hq.
Qed.

Lemma value_after_last (args : list string) (name : string)
  (before after : list nat) (p : nat) (d : Z) :
  nth p args "" = name ->
  (forall q, In q after -> nth q args "" <> name) ->
  value_after args name (before ++ p :: after) d = atoi (nth (p + 2) args "").
Proof.
  intros E N. unfold value_after. rewrite fold_left_app. cbn [fold_left].
  rewrite E, String.eqb_refl.
  apply (value_after_unset args name after _ N).
Qed.

(** X2.  When parsing ends, [max_hops] and [timeout] are exactly what the
    flags the loop tested make them: going through the indices the loop
    tests in order ([flags_seen]: one place after an ordinary token, two
    after a value-taking flag), [max_hops] starts at 30 and every tested
    index holding ["-ttl"] sets it to [atoi] of the token two places
    further, and [timeout] starts at 10000 and is set likewise by
    ["-timeout"].  So the last tested [-ttl] decides, with the token two
    places after it, and when no tested index holds [-ttl] the default 30
    stands; the same for [-timeout] and 10000.  (A [-ttl] that follows a
    value-taking flag is that flag's value and is not tested.) *)
Theorem values_come_from_defaults_or_flags (args : list string) (v1 : Vars) :
  parse_args args initial_vars = Done v1 ->
  max_hops v1 = value_after args "-ttl" (flags_seen args) 30 /\
  timeout v1 = value_after args "-timeout" (flags_seen args) 10000 /\
  (forall before p after,
     flags_seen args = (before ++ p :: after)%list ->
     nth p args "" = "-ttl" ->
     (forall q, In q after -> nth q args "" <> "-ttl") ->
     max_hops v1 = atoi (nth (p + 2) args "")) /\
  (forall before p after,
     flags_seen args = (before ++ p :: after)%list ->
     nth p args "" = "-timeout" ->
     (forall q, In q after -> nth q args "" <> "-timeout") ->
     timeout v1 = atoi (nth (p + 2) args "")) /\
  ((forall p, In p (flags_seen args) -> nth p args "" <> "-ttl") ->
   max_hops v1 = 30) /\
  ((forall p, In p (flags_seen args) -> nth p args "" <> "-timeout") ->
   timeout v1 = 10000).
Proof.
  unfold parse_args; intro H.
  apply parse_loop_effect in H. destruct H as (Hm & Ht & _).
  fold (flags_seen args) in Hm, Ht.
  assert (Hm0 : max_hops v1 = value_after args "-ttl" (flags_seen args) 30)
    by (rewrite Hm; destruct (existsb _ args); reflexivity).
  assert (Ht0 : timeout v1 = value_after args "-timeout" (flags_seen args) 10000)
    by (rewrite Ht; destruct (existsb _ args); reflexivity).
  split; [exact Hm0|]. split; [exact Ht0|].
  split; [|split; [|split]].
  - intros before p after E Hp N. rewrite Hm0, E.
    apply value_after_last; assumption.
  - intros before p after E Hp N. rewrite Ht0, E.
    apply value_after_last; assumption.
  - intro N. rewrite Hm0. apply value_after_unset; exact N.
  - intro N. rewrite Ht0. apply value_after_unset; exact N.
Qed.

(** X3.  When parsing ends, the gateways are exactly, in this order, one
    node for each index the loop tested and found to hold ["-gw"]: the
    node has the address [InetPtonA] stored in a zeroed buffer for the
    token after the flag, that token as its name when [InetPtonA] returned
    1 and the empty name otherwise, and the flag false.  The tested indices
    are strictly increasing and within [args], so the gateways are in
    command-line order. *)
Theorem gateways_follow_the_command_line (args : list string) (v1 : Vars) :
  parse_args args initial_vars = Done v1 ->
  gateways v1 =
    map (gateway_at args)
        (filter (fun p => (nth p args "" =? "-gw")%string) (flags_seen args)) /\
  StronglySorted lt (flags_seen args) /\
  Forall (fun p => (p < List.length args)%nat) (flags_seen args).
Proof.
  unfold parse_args; intro H.
  apply parse_loop_effect in H. destruct H as (_ & _ & Hg).
  fold (flags_seen args) in Hg.
  split; [|split].
  - rewrite Hg. destruct (existsb _ args); reflexivity.
  - apply flag_indices_sorted.
  - eapply Forall_impl; [|apply flag_indices_bounds]. simpl; intros; lia.
Qed.

Lemma parse_arg_defined (args : list string) (a : nat) (v : Vars) :
  (a < List.length args)%nat -> flags_have_values args ->
  exists r, parse_arg args a v = Done r.
Proof.
  intros L F.
  destruct (nth_error args a) as [tok|] eqn:E;
    [|apply nth_error_None in E; lia].
  destruct (F a tok E) as (F1 & F2).
  unfold parse_arg, arg. rewrite E. simpl.
  destruct (String.eqb_spec tok "-v"); [eauto|].
  destruct (String.eqb_spec tok "-help"); [eauto|].
  destruct (String.eqb_spec tok "-d").
  { specialize (F1 (or_introl e)).
    unfold parse_d, arg.
    destruct (nth_error args (a + 1)) eqn:E1;
      [|apply nth_error_None in E1; lia].
    simpl. destruct (InetPtonA _ _). simpl. eauto. }
  destruct (String.eqb_spec tok "-gw").
  { specialize (F1 (or_intror e)).
    unfold parse_gw, arg.
    destruct (nth_error args (a + 1)) eqn:E1;
      [|apply nth_error_None in E1; lia].
    simpl. destruct (InetPtonA _ _). destruct (negb _); simpl; eauto. }
  destruct (String.eqb_spec tok "-ttl").
  { specialize (F2 (or_introl e)).
    unfold parse_ttl, arg.
    destruct (nth_error args (a + 1)) eqn:E1;
      [|apply nth_error_None in E1; lia].
    destruct (nth_error args (S a + 1)) eqn:E2;
      [|apply nth_error_None in E2; lia].
    destruct (verbose v); simpl; eauto. }
  destruct (String.eqb_spec tok "-timeout").
  { specialize (F2 (or_intror e)).
    unfold parse_timeout, arg.
    destruct (nth_error args (a + 1)) eqn:E1;
      [|apply nth_error_None in E1; lia].
    destruct (nth_error args (S a + 1)) eqn:E2;
      [|apply nth_error_None in E2; lia].
    destruct (verbose v); simpl; eauto. }
  eauto.
Qed.

Lemma parse_loop_defined (fuel : nat) (args : list string) (a : nat) (v : Vars) :
  (List.length args <= a + fuel)%nat -> flags_have_values args ->
  exists v', parse_loop fuel args a v = Done v'.
Proof.
  revert a v; induction fuel as [|fuel IH]; intros a v L F; simpl;
    destruct (a <? List.length args)%nat eqn:C; eauto.
  - apply Nat.ltb_lt in C; lia.
  - apply Nat.ltb_lt in C.
    destruct (parse_arg_defined args a v C F) as ([a' v1] & P).
    rewrite P; simpl.
    apply parse_arg_spec in P. destruct P as (Le & _).
    apply IH; [lia | exact F].
Qed.

(** X4.  When every [-d] and [-gw] of the command line is followed by a
    token and every [-ttl] and [-timeout] by two, parsing reads no element
    beyond the end of [args] and [main] returns an exit code. *)
Theorem main_returns_when_flags_have_values (argv : list string) (w : World) :
  flags_have_values (skipn 1 argv) ->
  (exists v1, parsed argv = Done v1) /\
  (exists code v w', main argv w = Done (code, v, w')).
Proof.
  intro F.
  assert (P : exists v1, parsed argv = Done v1).
  { unfold parsed, parse_args. apply parse_loop_defined; [lia | exact F]. }
  split; [exact P|].
  destruct P as (v1 & P).
  pose proof (main_run argv w) as R.
  destruct (main argv w) as [[[code v] w']| |] eqn:M.
  - eauto.
  - inversion R; subst. congruence.
  - inversion R.
Qed.

(** ** More about probing *)

Lemma stdout_only_echoes (tr : list event) :
  stdout tr = [] -> only_text tr -> tr = [].
Proof.
  intros S (E & C & L). destruct tr as [|e tr]; [reflexivity|].
  destruct e; simpl in *; discriminate.
Qed.

Lemma sweep_step_trace (h : HANDLE) (opts opts1 : IP_OPTION_INFORMATION)
  (i buf buf1 : Z) (v v1 : Vars) (w w1 : World) :
  sweep_step h opts i buf v w = (opts1, buf1, v1, w1) ->
  Tos opts1 = Tos opts /\ Flags opts1 = Flags opts /\
  OptionsSize opts1 = OptionsSize opts /\
  destination v1 = destination v /\ timeout v1 = timeout v /\
  verbose v1 = verbose v /\
  exists ext,
    trace v1 = (trace v ++ ext)%list /\
    creates ext = [] /\
    echo_calls ext = [(h, ip (destination v), opts1, to_dword (timeout v))] /\
    (verbose v = false -> stdout ext = []).
Proof.
  unfold sweep_step; intro H.
  destruct (IcmpSendEcho _ _ _ _ _ _ _) as [[count b] w'] eqn:S.
  inversion H; subst; clear H. simpl.
  destruct (0 <? count)%N; simpl.
  - repeat split.
    eexists; split; [rewrite <- app_assoc; reflexivity|]. simpl.
    destruct (verbose v) eqn:V.
    + destruct (only_text_observe_messages buf1 i (gateways v)) as (E & C & _).
      rewrite (echo_calls_no_echo _ E), C.
      repeat split. intro X; discriminate X.
    + repeat split.
  - repeat split. exists [Echo h (ip (destination v))
                             (mkOptions (to_uchar i) (Tos opts) (Flags opts) (OptionsSize opts))
                             (to_dword (timeout v)) count buf1].
    repeat split.
Qed.

Lemma sweep_trace (fuel : nat) (h : HANDLE) (opts : IP_OPTION_INFORMATION)
  (i buf : Z) (v v' : Vars) (w w' : World) :
  sweep fuel h opts i buf v w = Done (v', w') ->
  destination v' = destination v /\ timeout v' = timeout v /\
  verbose v' = verbose v /\
  exists ext,
    trace v' = (trace v ++ ext)%list /\
    creates ext = [] /\
    Forall (call_with h (ip (destination v)) (Tos opts) (Flags opts)
                      (OptionsSize opts) (to_dword (timeout v)))
           (echo_calls ext) /\
    (verbose v = false -> stdout ext = []).
Proof.
  revert opts i buf v w; induction fuel as [|fuel IH]; intros opts i buf v w H;
    simpl in H; destruct (i <? max_hops v); try discriminate.
  - inversion H; subst; clear H. repeat split.
    exists []; rewrite app_nil_r; repeat split; constructor.
  - destruct (sweep_step h opts i buf v w) as [[[opts1 buf1] v1] w1] eqn:S.
    apply sweep_step_trace in S.
    destruct S as (To & Fl & Sz & Hd & Ht & Hv & ext1 & T1 & C1 & E1 & Q1).
    apply IH in H.
    destruct H as (Hd' & Ht' & Hv' & ext2 & T2 & C2 & E2 & Q2).
    rewrite Hd, Ht, Hv in *. rewrite To, Fl, Sz in E2.
    split; [congruence|]. split; [congruence|]. split; [congruence|].
    exists (ext1 ++ ext2)%list.
    split; [rewrite T2, T1, app_assoc; reflexivity|].
    split; [rewrite creates_app, C1, C2; reflexivity|].
    split.
    + rewrite echo_calls_app, E1. constructor; [|exact E2].
      simpl. repeat split; assumption.
    + intro V. rewrite stdout_app, (Q1 V), (Q2 V). reflexivity.
  - inversion H; subst; clear H. repeat split.
    exists []; rewrite app_nil_r; repeat split; constructor.
Qed.

Lemma stdout_report (v : Vars) :
  stdout (report v) =
  ("Destination:" ++ hostname (destination v) ++ ":replied" ++ endl)
  :: map (fun gw => "Gateway:" ++ hostname gw ++ ":"
                    ++ (if replied gw then "replied" else "no reply") ++ endl)
         (gateways v).
Proof.
  unfold report; cbn [stdout]. f_equal.
  induction (gateways v) as [|g l IH]; [reflexivity|].
  cbn [map]. unfold gateway_line at 1. cbn [stdout]. rewrite IH. reflexivity.
Qed.

Lemma print_if_verbose_trace (s : string) (v : Vars) :
  trace (print_if_verbose s v)
    = (trace v ++ (if verbose v then [Out s] else []))%list /\
  destination (print_if_verbose s v) = destination v /\
  gateways (print_if_verbose s v) = gateways v /\
  timeout (print_if_verbose s v) = timeout v /\
  max_hops (print_if_verbose s v) = max_hops v /\
  verbose (print_if_verbose s v) = verbose v.
Proof.
  unfold print_if_verbose, print.
  destruct (verbose v) eqn:V; simpl; rewrite ?app_nil_r; repeat split; auto.
Qed.

(** What [probe_route] appends to the trace. *)
Lemma probe_route_trace (h : HANDLE) (v v' : Vars) (w w' : World) (code : Z) :
  probe_route h v w = Done (code, v', w') ->
  ip (destination v') = ip (destination v) /\ timeout v' = timeout v /\
  hostname (destination v') = hostname (destination v) /\
  exists ext,
    trace v' = (trace v ++ ext)%list /\
    creates ext = [] /\
    Forall (call_with h (ip (destination v)) 0 IP_FLAG_DF 0 (to_dword (timeout v)))
           (echo_calls ext) /\
    (verbose v = false ->
     stdout ext = if code =? 0 then stdout (report v') else []).
Proof.
  unfold probe_route; intro H.
  destruct (reachability_probe h v w) as [[count buf] w1] eqn:R.
  set (line := if (0 <? count)%N then _ else _) in H.
  set (e := Echo h (ip (destination v)) (initial_options v) (to_dword (timeout v))
                 count buf) in H.
  set (v2 := print_if_verbose line (log [e] v)) in H.
  destruct (print_if_verbose_trace line (log [e] v)) as (T2 & D2 & G2 & To2 & M2 & V2).
  fold v2 in T2, D2, G2, To2, M2, V2.
  cbn [log trace destination gateways timeout max_hops verbose] in T2, D2, G2, To2, M2, V2.
  set (t2 := if verbose v then [Out line] else []) in T2.
  assert (Ct2 : creates t2 = []) by (unfold t2; destruct (verbose v); reflexivity).
  assert (Et2 : echo_calls t2 = []) by (unfold t2; destruct (verbose v); reflexivity).
  assert (Qt2 : verbose v = false -> t2 = []) by (unfold t2; intros ->; reflexivity).
  assert (Call : call_with h (ip (destination v)) 0 IP_FLAG_DF 0 (to_dword (timeout v))
                           (h, ip (destination v), initial_options v, to_dword (timeout v)))
    by (simpl; repeat split).
  destruct (count =? 0)%N.
  - inversion H; subst; clear H.
    cbn [log trace destination gateways timeout max_hops verbose].
    rewrite D2, To2. do 3 (split; [reflexivity|]).
    exists (e :: t2 ++ [Close h])%list.
    split; [rewrite T2, <- !app_assoc; reflexivity|].
    split; [unfold e; cbn [creates]; rewrite creates_app, Ct2; reflexivity|].
    split.
    + unfold e; cbn [echo_calls]. rewrite echo_calls_app, Et2.
      constructor; [exact Call | constructor].
    + intro V. rewrite (Qt2 V). reflexivity.
  - set (v3 := set_destination (set_replied true (destination v2)) v2) in H.
    inv_bind. destruct x as [v4 w2]. inversion H; subst; clear H.
    assert (S4 : destination v4 = destination v3 /\ timeout v4 = timeout v3 /\
                 verbose v4 = verbose v3 /\
                 exists exts,
                   trace v4 = (trace v3 ++ exts)%list /\ creates exts = [] /\
                   Forall (call_with h (ip (destination v3)) 0 IP_FLAG_DF 0
                                     (to_dword (timeout v3))) (echo_calls exts) /\
                   (verbose v3 = false -> stdout exts = [])).
    { destruct (0 <? List.length (gateways v3))%nat.
      - apply sweep_trace in E. exact E.
      - inversion E; subst. repeat split.
        exists []; rewrite app_nil_r; repeat split; constructor. }
    destruct S4 as (D4 & To4 & V4 & exts & T4 & C4 & Ca4 & Q4).
    unfold v3 in D4, To4, V4, T4, Ca4, Q4.
    cbn [set_destination set_replied trace destination timeout verbose ip hostname]
      in D4, To4, V4, T4, Ca4, Q4.
    rewrite D2, To2 in Ca4. rewrite V2 in Q4.
    cbn [log trace destination gateways timeout max_hops verbose].
    rewrite D4, To4, D2, To2. cbn [ip hostname].
    do 3 (split; [reflexivity|]).
    destruct (only_text_report v4) as (Er & Cr & _).
    exists (e :: t2 ++ exts ++ report v4 ++ [Close h])%list.
    split; [rewrite T4, T2, <- !app_assoc; reflexivity|].
    split; [unfold e; cbn [creates];
            rewrite !creates_app, Ct2, C4, Cr; reflexivity|].
    split.
    + unfold e; cbn [echo_calls].
      rewrite !echo_calls_app, Et2, (echo_calls_no_echo _ Er).
      cbn [echo_calls app]. rewrite app_nil_r.
      constructor; [exact Call | exact Ca4].
    + intro V. rewrite (Qt2 V). unfold e; cbn [stdout app].
      rewrite !stdout_app, (Q4 V). cbn [stdout app]. rewrite app_nil_r.
      reflexivity.
Qed.

(** ** More about whole runs *)

Lemma zrange_length (i : Z) (n : nat) : List.length (zrange i n) = n.
Proof. revert i; induction n as [|n IH]; intro i; simpl; [reflexivity|]. rewrite IH; reflexivity. Qed.

(** A run that returns either stopped before any probe, with exit code 1,
    2 or 3, or is [probe_route] on the handle [IcmpCreateFile] returned. *)
Lemma main_reaches_probe_route (argv : list string) (w w' : World) (code : Z) (v : Vars) :
  main argv w = Done (code, v, w') ->
  ((code = 1 \/ code = 2 \/ code = 3) /\ echoes (trace v) = []) \/
  exists v1 h w1,
    parsed argv = Done v1 /\ IcmpCreateFile w = (h, w1) /\
    h <> INVALID_HANDLE_VALUE /\
    probe_route h (log [Create h] (notice_no_gateways v1)) w1 = Done (code, v, w').
Proof.
  intro M.
  destruct (Nat.lt_ge_cases (List.length argv) 2) as [L|L].
  { rewrite main_no_arguments in M by exact L. inversion M; subst.
    left; split; [auto | reflexivity]. }
  pose proof M as M0. apply main_observed in M0.
  rewrite main_parses in M by exact L.
  destruct (parsed argv) as [v1| |] eqn:P; simpl in M; try discriminate M.
  destruct (hostname (destination v1) =? "")%string.
  { inversion M; subst. left; split; [auto|]. inversion M0; subst; assumption. }
  destruct (IcmpCreateFile w) as [h w1] eqn:C.
  destruct (Z.eqb_spec h INVALID_HANDLE_VALUE) as [Hi|Hi].
  { inversion M; subst. left; split; [auto|]. inversion M0; subst; assumption. }
  right. exists v1, h, w1. auto.
Qed.

(** X5.  On every run that returns, each call of [IcmpSendEcho] is made
    on the one handle [IcmpCreateFile] returned (never the invalid one), to
    the destination's address, with the don't-fragment flag as the only
    flag, no type of service and no options, and with the timeout of the
    command line converted to [DWORD]. *)
Theorem probes_go_to_the_destination_on_the_created_handle
  (argv : list string) (w w' : World) (code : Z) (v : Vars) :
  main argv w = Done (code, v, w') ->
  Forall (fun c =>
            creates (trace v) = [fst (fst (fst c))] /\
            fst (fst (fst c)) <> INVALID_HANDLE_VALUE /\
            call_with (fst (fst (fst c))) (ip (destination v)) 0 IP_FLAG_DF 0
                      (to_dword (timeout v)) c)
         (echo_calls (trace v)).
Proof.
  intro M. destruct (main_reaches_probe_route _ _ _ _ _ M)
    as [(_ & E)|(v1 & h & w1 & P & C & Hi & R)].
  { rewrite (echo_calls_no_echo _ E). constructor. }
  apply probe_route_trace in R.
  destruct R as (Hip & Ht & _ & ext & T & Cx & Ca & _).
  destruct (notice_no_gateways_spec v1) as (txt & Tn & On & _ & Dn & _ & Tmn & _).
  destruct (parsed_fresh _ _ P) as (_ & _ & O1).
  cbn [log trace destination timeout] in T, Ca, Hip, Ht.
  rewrite Tn in T.
  assert (Cr : creates (trace v) = [h]).
  { rewrite T, !creates_app, Cx.
    destruct O1 as (_ & -> & _). destruct On as (_ & -> & _). reflexivity. }
  assert (Ec : echo_calls (trace v) = echo_calls ext).
  { rewrite T, !echo_calls_app.
    destruct O1 as (E1 & _ & _). destruct On as (E2 & _ & _).
    rewrite (echo_calls_no_echo _ E1), (echo_calls_no_echo _ E2). reflexivity. }
  rewrite Ec. rewrite <- Hip, <- Ht in Ca.
  eapply Forall_impl; [|exact Ca].
  intros [[[h' d] o] t] (-> & K). simpl.
  split; [exact Cr|]. split; [exact Hi|]. split; [reflexivity | exact K].
Qed.

(** X6.  On every run that returns: at most [max 1 max_hops] probes are
    sent; exactly one when the destination does not answer it (exit code
    4) and exactly one when no gateway is given; and when the destination
    answers and there is a gateway, one for the reachability check and one
    for each value of the loop index from 1 to [max_hops - 1]. *)
Theorem number_of_probes (argv : list string) (w w' : World) (code : Z) (v : Vars) :
  main argv w = Done (code, v, w') ->
  Z.of_nat (List.length (echoes (trace v))) <= Z.max 1 (max_hops v) /\
  (code = 4 -> List.length (echoes (trace v)) = 1%nat) /\
  (code = 0 -> gateways v = [] -> List.length (echoes (trace v)) = 1%nat) /\
  (code = 0 -> gateways v <> [] ->
     List.length (echoes (trace v)) = S (Z.to_nat (max_hops v - 1))) /\
  (code <> 0 -> code <> 4 -> echoes (trace v) = []).
Proof.
  intro M; apply main_observed in M.
  inversion M; subst; clear M;
    repeat match goal with
           | X : echoes (trace _) = _ |- _ => rewrite X; clear X
           end; cbn [List.length].
  - repeat split; try discriminate; try lia; try reflexivity; intros; lia.
  - repeat split; try discriminate; try lia; try reflexivity; intros; lia.
  - repeat split; try discriminate; try lia; try reflexivity; intros; lia.
  - repeat split; try discriminate; try lia; try reflexivity; intros; lia.
  - match goal with
    | G : gateways v = fold_left _ _ _ |- _ =>
        pose proof (Forall2_nil_iff _ _ _ (fold_apply_reply_marked ps (gateways v1))) as N;
        rewrite <- G in N
    end.
    assert (Len : gateways v1 <> [] -> List.length ps = Z.to_nat (max_hops v - 1)).
    { intro G1.
      match goal with
      | X : gateways v1 <> [] -> map probe_ttl ps = _, Y : max_hops v = _ |- _ =>
          pose proof (f_equal (@List.length Z) (X G1)) as Q; rewrite Y
      end.
      rewrite !length_map in Q. unfold ttls_below in Q.
      rewrite zrange_length in Q. exact Q. }
    split; [|split; [discriminate|split; [|split]]].
    + destruct (gateways v1) as [|g gs] eqn:G1.
      * match goal with X : [] = [] -> ps = [] |- _ => rewrite (X eq_refl) end.
        simpl; lia.
      * rewrite Len by discriminate. lia.
    + intros _ G. apply N in G.
      match goal with X : gateways v1 = [] -> ps = [] |- _ => rewrite (X G) end.
      reflexivity.
    + intros _ G. rewrite Len; [reflexivity|]. intro G1. apply G, N, G1.
    + intros X; contradiction.
Qed.

(** X7.  On every run that returns, the destination's [replied] flag is
    true at the return exactly when the exit code is 0. *)
Theorem destination_flag_tells_success (argv : list string) (w w' : World)
  (code : Z) (v : Vars) :
  main argv w = Done (code, v, w') ->
  (replied (destination v) = true <-> code = 0).
Proof.
  intro M; apply main_observed in M.
  inversion M; subst; clear M;
    try (match goal with
         | P : parsed argv = Done _, D : destination v = destination _ |- _ =>
             rewrite D; destruct (parsed_fresh _ _ P) as (F & _); rewrite F
         end);
    try (split; intro X; discriminate X).
  match goal with D : destination v = set_replied true _ |- _ => rewrite D end.
  split; reflexivity.
Qed.

(** X8.  A run that ends before the handle exists leaves the network
    alone: with exit code 1 or 2 the world at the return is the world at
    the start and the trace holds text only; with exit code 3 the world is
    the one [IcmpCreateFile] left, no probe was sent and nothing was
    closed. *)
Theorem no_network_use_without_a_handle (argv : list string) (w w' : World)
  (code : Z) (v : Vars) :
  main argv w = Done (code, v, w') ->
  (code = 1 \/ code = 2 -> w' = w /\ only_text (trace v)) /\
  (code = 3 ->
     w' = snd (IcmpCreateFile w) /\
     echoes (trace v) = [] /\ closes (trace v) = []).
Proof.
  intro M. pose proof (main_observed _ _ _ _ _ M) as O.
  pose proof (main_run argv w) as R. rewrite M in R.
  inversion R; subst; clear R; inversion O; subst; clear O;
    (split; [intros [X|X]; try discriminate X | intro X; try discriminate X]).
  - split; [reflexivity|]. repeat split; reflexivity.
  - split; [reflexivity|]. repeat split; assumption.
  - match goal with C : IcmpCreateFile w = _ |- _ => rewrite C end.
    repeat split; assumption.
Qed.

Lemma notice_no_gateways_quiet (v : Vars) :
  verbose v = false ->
  trace (notice_no_gateways v)
    = (trace v ++ match gateways v with
                  | [] => [Out ("No gateways specified" ++ endl)]
                  | _ :: _ => []
                  end)%list /\
  verbose (notice_no_gateways v) = false.
Proof.
  intro V. unfold notice_no_gateways, print.
  destruct (gateways v) as [|g gs]; simpl; rewrite ?V, ?app_nil_r; auto.
Qed.

(** Without ["-v"] and ["-help"] among the tokens, parsing writes nothing
    and leaves [verbose] false. *)
Lemma parse_args_quiet (args : list string) (v1 : Vars) :
  parse_args args initial_vars = Done v1 ->
  ~ In "-v" args -> ~ In "-help" args ->
  verbose v1 = false /\ trace v1 = [].
Proof.
  unfold parse_args; intros H NV NH.
  assert (Step : forall a v a' v',
             (a < List.length args)%nat -> parse_arg args a v = Done (a', v') ->
             verbose v = false /\ trace v = [] ->
             verbose v' = false /\ trace v' = []).
  { intros a v a' v' _ P (V & T). apply parse_arg_cases in P.
    destruct P as (tok & Hn & [C|[C|[C|[C|[C|[C|C]]]]]]).
    - destruct C as (-> & _). exfalso; apply NV; eapply in_args_of_nth; exact Hn.
    - destruct C as (-> & _). exfalso; apply NH; eapply in_args_of_nth; exact Hn.
    - destruct C as (_ & _ & P). apply parse_d_spec in P.
      destruct P as (nxt & _ & _ & _ & _ & Hv & _ & _ & Q).
      split; [congruence | rewrite (Q V); exact T].
    - destruct C as (_ & _ & P).
      pose proof (parse_gw_quiet _ _ _ _ P V) as Q.
      apply parse_gw_appends in P.
      destruct P as (nxt & node & _ & _ & _ & _ & _ & _ & _ & _ & Hv & _).
      split; congruence.
    - destruct C as (_ & P).
      pose proof (parse_ttl_quiet _ _ _ _ _ P V) as Q.
      apply parse_ttl_reads in P.
      destruct P as (_ & val & _ & _ & _ & _ & _ & Hv & _). split; congruence.
    - destruct C as (_ & P).
      pose proof (parse_timeout_quiet _ _ _ _ _ P V) as Q.
      apply parse_timeout_reads in P.
      destruct P as (_ & val & _ & _ & _ & _ & _ & Hv & _). split; congruence.
    - destruct C as (_ & _ & _ & _ & _ & _ & _ & ->). auto. }
  destruct (parse_loop_invariant (fun _ v => verbose v = false /\ trace v = [])
              args Step _ _ _ _ H) as (_ & E); [|exact E].
  destruct (existsb _ args) eqn:X; [|auto].
  apply existsb_exists in X. destruct X as (x & Hx & Ex).
  apply String.eqb_eq in Ex; subst x. contradiction.
Qed.

(** X9.  What a run without ["-v"] and ["-help"] on the command line
    writes to [std::cout]: the help text when no argument is given; the
    notice "No destination specified" with exit code 2; otherwise the
    notice "No gateways specified" when there is no gateway, followed, with
    exit code 0 only, by the report.  In particular such a run writes
    nothing about a handle that could not be created or a destination that
    did not answer. *)
Theorem output_of_a_quiet_run (argv : list string) (w w' : World)
  (code : Z) (v : Vars) :
  main argv w = Done (code, v, w') ->
  ~ In "-v" (skipn 1 argv) -> ~ In "-help" (skipn 1 argv) ->
  stdout (trace v) =
  if code =? 1 then stdout help_text
  else if code =? 2 then ["No destination specified" ++ endl]
  else (match gateways v with
        | [] => [("No gateways specified" ++ endl)%string]
        | _ :: _ => []
        end ++ if code =? 0 then stdout (report v) else [])%list.
Proof.
  intros M NV NH.
  destruct (Nat.lt_ge_cases (List.length argv) 2) as [L|L].
  { rewrite main_no_arguments in M by exact L. inversion M; subst. reflexivity. }
  rewrite main_parses in M by exact L.
  destruct (parsed argv) as [v1| |] eqn:P; simpl in M; try discriminate M.
  destruct (parse_args_quiet _ _ P NV NH) as (V & T).
  destruct (notice_no_gateways_quiet v1 V) as (Tn & Vn).
  destruct (notice_no_gateways_spec v1) as (_ & _ & _ & Gn & _).
  rewrite T in Tn. cbn [app] in Tn.
  destruct (hostname (destination v1) =? "")%string.
  { unfold print in M; cbn [log verbose] in M. rewrite V in M.
    inversion M; subst. cbn [trace log]. rewrite T. reflexivity. }
  destruct (IcmpCreateFile w) as [h w1] eqn:C.
  destruct (Z.eqb_spec h INVALID_HANDLE_VALUE) as [Hi|Hi].
  { unfold print_if_verbose in M; cbn [log verbose] in M. rewrite Vn in M.
    inversion M; subst. cbn [trace log gateways]. rewrite Tn, Gn.
    destruct (gateways v1); reflexivity. }
  pose proof M as R. apply probe_route_trace in R.
  destruct R as (_ & _ & _ & ext & Tx & _ & _ & Q).
  cbn [log trace verbose] in Tx, Q. specialize (Q Vn).
  rewrite Tx, Tn, !stdout_app, Q.
  assert (K : (code = 0 \/ code = 4) /\ (gateways v = [] <-> gateways v1 = [])).
  { destruct (reachability_probe h (log [Create h] (notice_no_gateways v1)) w1)
      as [[count buf] w2] eqn:Rp.
    destruct (N.eq_dec count 0) as [Z0|NZ].
    - subst count.
      destruct (probe_route_silent _ _ _ _ _ Rp) as (v' & txt & Q' & _ & _ & G' & _).
      rewrite Q' in M. inversion M; subst. split; [auto|].
      rewrite G'. cbn [log gateways]. rewrite Gn. tauto.
    - destruct (probe_route_answered _ _ _ _ _ _ Rp NZ)
        as (v' & w2' & txt & ext' & Q' & _ & _ & _ & _ & _ & _ & G' & _).
      rewrite Q' in M. inversion M; subst. split; [auto|].
      rewrite G'. cbn [log gateways]. rewrite Gn. symmetry.
      apply (Forall2_nil_iff _ _ _ (fold_apply_reply_marked (echoes ext') (gateways v1))). }
  destruct K as (K & G).
  destruct K as [-> | ->]; cbn [Z.eqb Pos.eqb];
    destruct (gateways v1) as [|g1 gs1]; destruct (gateways v) as [|g gs];
    try reflexivity;
    try (exfalso; destruct G as (G1 & G2);
         first [ specialize (G1 eq_refl); discriminate G1
               | specialize (G2 eq_refl); discriminate G2 ]).
Qed.

(** X10.  A run gets as far as creating the ICMP handle (exit code 0, 3
    or 4) only when some [-d] of the command line is followed by a token
    for which [InetPtonA] returned 1, and that token is the destination's
    name at the return. *)
Theorem destination_is_an_accepted_literal (argv : list string) (w w' : World)
  (code : Z) (v : Vars) :
  main argv w = Done (code, v, w') ->
  code = 0 \/ code = 3 \/ code = 4 ->
  hostname (destination v) <> "" /\
  exists a buf,
    nth_error (skipn 1 argv) a = Some "-d" /\
    nth_error (skipn 1 argv) (a + 1) = Some (hostname (destination v)) /\
    fst (InetPtonA (hostname (destination v)) buf) = 1.
Proof.
  intros M K.
  pose proof (main_run argv w) as R. rewrite M in R.
  assert (H : exists v1, parsed argv = Done v1 /\ hostname (destination v1) <> "" /\
                         hostname (destination v) = hostname (destination v1)).
  { inversion R; subst; clear R;
      try (destruct K as [K|[K|K]]; discriminate K);
      match goal with
      | P : parsed argv = Done ?x, D : destination v = _ |- _ =>
          exists x; rewrite D; auto
      end. }
  destruct H as (v1 & P & Ne & E). rewrite E. split; [exact Ne|].
  destruct (parse_args_origin _ _ P) as (_ & _ & _ & [N|N]); [contradiction|].
  exact N.
Qed.

(** ** Exit codes of every execution *)

(** C4.  The table of exit codes ([exits]: 1 without arguments, 2 without
    a destination after parsing, 3 when the ICMP handle cannot be created,
    4 when the reachability probe gets no reply, 0 otherwise) does not hold
    for every execution.  On any platform the documented command line
    [routecheck -d 10.0.0.9 -gw 10.0.2.1 -ttl 5] makes the parser evaluate
    [args[6]] of a vector of six, and the run ends there with no exit code
    of the table.  What holds: an execution that does not read beyond
    [args] returns, and its exit code is exactly the one of the table, with
    the report written just before the handle is closed when it is 0; and
    every command line whose [-d] and [-gw] are followed by a token and
    whose [-ttl] and [-timeout] by two is such an execution. *)
Theorem exit_code_is_missing_when_a_value_is_read_out_of_bounds :
  (forall w : World,
     main ["routecheck"; "-d"; "10.0.0.9"; "-gw"; "10.0.2.1"; "-ttl"; "5"] w
       = OutOfRange 6) /\
  (forall argv w,
     match main argv w with
     | Done (code, v, w') =>
         (forall c, exits argv w c <-> c = code) /\
         (code = 0 ->
          exists before h, trace v = (before ++ report v ++ [Close h])%list)
     | OutOfRange i =>
         (2 <= List.length argv)%nat /\ parsed argv = OutOfRange i /\
         (List.length (skipn 1 argv) <= i)%nat
     | OutOfFuel => False
     end) /\
  (forall argv w,
     flags_have_values (skipn 1 argv) ->
     exists code v w',
       main argv w = Done (code, v, w') /\ exits argv w code /\
       (code = 0 \/ code = 1 \/ code = 2 \/ code = 3 \/ code = 4)).
Proof.
  split; [|split].
  - intro w. apply main_parse_out_of_range; [simpl; lia|].
    unfold parsed, parse_args, parse_loop, parse_arg, parse_d, parse_gw, parse_ttl,
      arg, print_if_verbose; simpl.
    destruct (InetPtonA "10.0.0.9" 0) as [rc1 b1]; simpl.
    destruct (negb (rc1 =? 1)); simpl;
      destruct (InetPtonA "10.0.2.1" 0) as [rc2 b2]; simpl;
      destruct (negb (rc2 =? 1)); reflexivity.
  - intros argv w. pose proof (exit_code_table argv w) as T.
    destruct (main argv w) as [[[code v] w']|i|]; [exact T| |exact T].
    destruct T as (L & P). split; [exact L|]. split; [exact P|].
    unfold parsed, parse_args in P.
    eapply parse_loop_out_of_range; exact P.
  - intros argv w F.
    assert (P : exists v1, parsed argv = Done v1).
    { unfold parsed, parse_args. apply parse_loop_defined; [lia | exact F]. }
    destruct P as (v1 & P).
    pose proof (exit_code_table argv w) as T.
    pose proof (main_run argv w) as R.
    destruct (main argv w) as [[[code v] w']|i|].
    + exists code, v, w'. split; [reflexivity|].
      destruct T as (T & _).
      assert (X : exits argv w code) by (apply T; reflexivity).
      split; [exact X|]. inversion X; auto.
    + destruct T as (_ & Q). rewrite P in Q. discriminate Q.
    + destruct T.
Qed.

End MoreProperties.

(** ** Witnesses of the further properties *)

(** Witness of X1: [-v] as the last token, after an invalid gateway. *)
Lemma verbose_exactly_when_v_is_given_witness :
  parse_args (W := three_hops) (skipn 1 argv_verbose_last) initial_vars
    = Done (parsed_vars (W := three_hops) argv_verbose_last) /\
  (verbose (parsed_vars (W := three_hops) argv_verbose_last) = true <->
   In "-v" (skipn 1 argv_verbose_last)).
Proof.
  assert (P : parse_args (W := three_hops) (skipn 1 argv_verbose_last) initial_vars
              = Done (parsed_vars (W := three_hops) argv_verbose_last))
    by (vm_compute; reflexivity).
  split; [exact P|].
  exact (verbose_exactly_when_v_is_given (W := three_hops) _ _ P).
Defined.

(** Witness of X2: [-ttl 5 7], where the token after the flag and the
    token two places after it differ. *)
Lemma values_come_from_defaults_or_flags_witness :
  parse_args (W := three_hops) (skipn 1 argv_ttl_5_then_7) initial_vars
    = Done (parsed_vars (W := three_hops) argv_ttl_5_then_7) /\
  max_hops (parsed_vars (W := three_hops) argv_ttl_5_then_7) = 7 /\
  max_hops (parsed_vars (W := three_hops) argv_ttl_5_then_7)
    = value_after (skipn 1 argv_ttl_5_then_7) "-ttl"
                  (flags_seen (skipn 1 argv_ttl_5_then_7)) 30 /\
  timeout (parsed_vars (W := three_hops) argv_ttl_5_then_7)
    = value_after (skipn 1 argv_ttl_5_then_7) "-timeout"
                  (flags_seen (skipn 1 argv_ttl_5_then_7)) 10000.
Proof.
  assert (P : parse_args (W := three_hops) (skipn 1 argv_ttl_5_then_7) initial_vars
              = Done (parsed_vars (W := three_hops) argv_ttl_5_then_7))
    by (vm_compute; reflexivity).
  split; [exact P|].
  split; [vm_compute; reflexivity|].
  destruct (values_come_from_defaults_or_flags (W := three_hops) _ _ P)
    as (Hm & Ht & _).
  split; [exact Hm | exact Ht].
Defined.

(** Witness of X3: three [-gw] flags, two of them with the same address. *)
Lemma gateways_follow_the_command_line_witness :
  parse_args (W := three_hops) (skipn 1 argv_two_gateways) initial_vars
    = Done (parsed_vars (W := three_hops) argv_two_gateways) /\
  List.length (gateways (parsed_vars (W := three_hops) argv_two_gateways)) = 3%nat /\
  gateways (parsed_vars (W := three_hops) argv_two_gateways) =
    map (gateway_at (W := three_hops) (skipn 1 argv_two_gateways))
        (filter (fun p => (nth p (skipn 1 argv_two_gateways) "" =? "-gw")%string)
                (flags_seen (skipn 1 argv_two_gateways))) /\
  StronglySorted lt (flags_seen (skipn 1 argv_two_gateways)) /\
  Forall (fun p => (p < List.length (skipn 1 argv_two_gateways))%nat)
         (flags_seen (skipn 1 argv_two_gateways)).
Proof.
  assert (P : parse_args (W := three_hops) (skipn 1 argv_two_gateways) initial_vars
              = Done (parsed_vars (W := three_hops) argv_two_gateways))
    by (vm_compute; reflexivity).
  split; [exact P|].
  split; [vm_compute; reflexivity|].
  exact (gateways_follow_the_command_line (W := three_hops) _ _ P).
Defined.

(** Witness of X4: every flag of [argv_two_gateways] has its value. *)
Lemma main_returns_when_flags_have_values_witness :
  flags_have_values (skipn 1 argv_two_gateways) /\
  (exists v1, parsed (W := three_hops) argv_two_gateways = Done v1) /\
  (exists code v w',
     main (W := three_hops) argv_two_gateways 0%nat = Done (code, v, w')).
Proof.
  assert (F : flags_have_values (skipn 1 argv_two_gateways)).
  { intros a tok H.
    do 8 (destruct a as [|a];
          [simpl in H; inversion H; subst; split; intros [X|X];
           first [discriminate X | simpl; lia]|]).
    destruct a; discriminate H. }
  split; [exact F|].
  exact (main_returns_when_flags_have_values (W := three_hops) _ 0%nat F).
Defined.

(** Witness of X5: the run with two gateways on the three-hop route. *)
Lemma probes_go_to_the_destination_on_the_created_handle_witness :
  main (W := three_hops) argv_two_gateways 0%nat
    = Done (0, run_two_gateways, 0%nat) /\
  Forall (fun c =>
            creates (trace run_two_gateways) = [fst (fst (fst c))] /\
            fst (fst (fst c)) <> INVALID_HANDLE_VALUE /\
            call_with (fst (fst (fst c))) (ip (destination run_two_gateways))
                      0 IP_FLAG_DF 0 (to_dword (timeout run_two_gateways)) c)
         (echo_calls (trace run_two_gateways)).
Proof.
  assert (M : main (W := three_hops) argv_two_gateways 0%nat
              = Done (0, run_two_gateways, 0%nat)) by (vm_compute; reflexivity).
  split; [exact M|].
  exact (probes_go_to_the_destination_on_the_created_handle
           (W := three_hops) _ _ _ _ _ M).
Defined.

(** Witness of X6: thirty probes with the default [max_hops]. *)
Lemma number_of_probes_witness :
  main (W := three_hops) argv_two_gateways 0%nat
    = Done (0, run_two_gateways, 0%nat) /\
  Z.of_nat (List.length (echoes (trace run_two_gateways)))
    <= Z.max 1 (max_hops run_two_gateways) /\
  (0 = 4 -> List.length (echoes (trace run_two_gateways)) = 1%nat) /\
  (0 = 0 -> gateways run_two_gateways = [] ->
   List.length (echoes (trace run_two_gateways)) = 1%nat) /\
  (0 = 0 -> gateways run_two_gateways <> [] ->
   List.length (echoes (trace run_two_gateways))
     = S (Z.to_nat (max_hops run_two_gateways - 1))) /\
  (0 <> 0 -> 0 <> 4 -> echoes (trace run_two_gateways) = []).
Proof.
  assert (M : main (W := three_hops) argv_two_gateways 0%nat
              = Done (0, run_two_gateways, 0%nat)) by (vm_compute; reflexivity).
  split; [exact M|].
  exact (number_of_probes (W := three_hops) _ _ _ _ _ M).
Defined.

(** Witness of X7: the run to a destination that is down. *)
Lemma destination_flag_tells_success_witness :
  main (W := dead_end) argv_two_gateways 0%nat = Done (4, run_dead_end, 0%nat) /\
  (replied (destination run_dead_end) = true <-> 4 = 0).
Proof.
  assert (M : main (W := dead_end) argv_two_gateways 0%nat
              = Done (4, run_dead_end, 0%nat)) by (vm_compute; reflexivity).
  split; [exact M|].
  exact (destination_flag_tells_success (W := dead_end) _ _ _ _ _ M).
Defined.

(** Witness of X8: the run on a platform without ICMP. *)
Lemma no_network_use_without_a_handle_witness :
  main (W := no_icmp) argv_two_gateways 0%nat
    = Done (3, final_vars (main (W := no_icmp) argv_two_gateways 0%nat), 0%nat) /\
  (3 = 1 \/ 3 = 2 ->
   0%nat = 0%nat /\
   only_text (trace (final_vars (main (W := no_icmp) argv_two_gateways 0%nat)))) /\
  (3 = 3 ->
   0%nat = snd (IcmpCreateFile (Win32 := no_icmp) 0%nat) /\
   echoes (trace (final_vars (main (W := no_icmp) argv_two_gateways 0%nat))) = [] /\
   closes (trace (final_vars (main (W := no_icmp) argv_two_gateways 0%nat))) = []).
Proof.
  assert (M : main (W := no_icmp) argv_two_gateways 0%nat
              = Done (3, final_vars (main (W := no_icmp) argv_two_gateways 0%nat), 0%nat))
    by (vm_compute; reflexivity).
  split; [exact M|].
  exact (no_network_use_without_a_handle (W := no_icmp) _ _ _ _ _ M).
Defined.

(** Witness of X9: the run with two gateways writes the report only. *)
Lemma output_of_a_quiet_run_witness :
  main (W := three_hops) argv_two_gateways 0%nat
    = Done (0, run_two_gateways, 0%nat) /\
  ~ In "-v" (skipn 1 argv_two_gateways) /\
  ~ In "-help" (skipn 1 argv_two_gateways) /\
  stdout (trace run_two_gateways) =
  (match gateways run_two_gateways with
   | [] => [("No gateways specified" ++ endl)%string]
   | _ :: _ => []
   end ++ stdout (report run_two_gateways))%list.
Proof.
  assert (M : main (W := three_hops) argv_two_gateways 0%nat
              = Done (0, run_two_gateways, 0%nat)) by (vm_compute; reflexivity).
  assert (NV : ~ In "-v" (skipn 1 argv_two_gateways))
    by (simpl; intuition discriminate).
  assert (NH : ~ In "-help" (skipn 1 argv_two_gateways))
    by (simpl; intuition discriminate).
  split; [exact M|]. split; [exact NV|]. split; [exact NH|].
  exact (output_of_a_quiet_run (W := three_hops) _ _ _ _ _ M NV NH).
Defined.

(** Witness of X10: the run with two gateways. *)
Lemma destination_is_an_accepted_literal_witness :
  main (W := three_hops) argv_two_gateways 0%nat
    = Done (0, run_two_gateways, 0%nat) /\
  (0 = 0 \/ 0 = 3 \/ 0 = 4) /\
  hostname (destination run_two_gateways) <> "" /\
  exists a buf,
    nth_error (skipn 1 argv_two_gateways) a = Some "-d" /\
    nth_error (skipn 1 argv_two_gateways) (a + 1)
      = Some (hostname (destination run_two_gateways)) /\
    fst (InetPtonA (Win32 := three_hops) (hostname (destination run_two_gateways)) buf) = 1.
Proof.
  assert (M : main (W := three_hops) argv_two_gateways 0%nat
              = Done (0, run_two_gateways, 0%nat)) by (vm_compute; reflexivity).
  assert (K : 0 = 0 \/ 0 = 3 \/ 0 = 4) by (left; reflexivity).
  split; [exact M|]. split; [exact K|].
  exact (destination_is_an_accepted_literal (W := three_hops) _ _ _ _ _ M K).
Defined.
